(** * gotchat-gpt: the message composer and the snippet segmentation parser

    A shallow embedding of two React components of the repository,

    - [MessageBox.tsx]: the composer (buffer, selection, attachments,
      paste handling, keyboard dispatch, submit and cancel), and
    - [UserContentBlock.tsx]: the renderer-side parser [processText] that
      splits a stored message into markdown sections and foldable snippets,

    together with the properties the specification states about them. *)

From Stdlib Require Import String Ascii ZArith Bool Arith Lia List.
Import ListNotations.
(* [length], [++] and friends below are those of lists. *)
Import Corelib.Init.Datatypes.

Local Open Scope list_scope.

(* ================================================================== *)
(** * JavaScript strings *)
(* ================================================================== *)

(** A JavaScript string is a finite sequence of code units.  Every string
    operation the two components use ([length], [+], [substring],
    [indexOf], [includes], [startsWith], [split], [trim], the regular
    expression [/\n/g]) works code unit by code unit, so a code unit is
    represented by an [ascii] and a string by a list of them. *)
Module JS.

Definition jsstring : Type := list ascii.

(** String literals of the source. *)
Definition str (s : string) : jsstring := list_ascii_of_string s.

(** The line feed, written [\n] in the source. *)
Definition LF : ascii := ascii_of_nat 10.

Definition eqb (a b : jsstring) : bool :=
  if list_eq_dec ascii_dec a b then true else false.

(** A string is falsy exactly when it is empty ([if (!content)],
    [if (remainingText)]). *)
Definition truthy (s : jsstring) : bool :=
  match s with [] => false | _ :: _ => true end.

(** [startsWith s pat]: [pat] is a prefix of [s]. *)
Fixpoint startsWith (s pat : jsstring) {struct pat} : bool :=
  match pat with
  | [] => true
  | p :: pat' =>
      match s with
      | [] => false
      | c :: s' => Ascii.eqb p c && startsWith s' pat'
      end
  end.

(** Position of the first occurrence of [pat] in [s], scanning from the
    left. *)
Fixpoint find_first (s pat : jsstring) : option nat :=
  if startsWith s pat then Some 0
  else match s with
       | [] => None
       | _ :: s' => option_map S (find_first s' pat)
       end.

(** [s.indexOf(pat)]: the position of the first occurrence, [-1] when there
    is none. *)
Definition indexOf (s pat : jsstring) : Z :=
  match find_first s pat with
  | Some i => Z.of_nat i
  | None => (-1)%Z
  end.

(** [s.includes(pat)]. *)
Definition includes (s pat : jsstring) : bool :=
  match find_first s pat with
  | Some _ => true
  | None => false
  end.

(** [s.substring(a, b)]: both arguments are clamped to [0 .. s.length] and
    swapped when [a > b]. *)
Definition clamp (s : jsstring) (i : Z) : nat :=
  Nat.min (Z.to_nat i) (length s).

Definition substring (s : jsstring) (a b : Z) : jsstring :=
  let a' := clamp s a in
  let b' := clamp s b in
  let lo := Nat.min a' b' in
  let hi := Nat.max a' b' in
  firstn (hi - lo) (skipn lo s).

(** [s.substring(a)]: up to the end of the string. *)
Definition substring_from (s : jsstring) (a : Z) : jsstring :=
  substring s a (Z.of_nat (length s)).

(** [s.split(sep)] for a string separator.  With an empty separator the
    string is cut into its code units.  Otherwise the occurrences of the
    separator are located from left to right, each search resuming right
    after the previous occurrence; [fuel] bounds the number of occurrences
    and [length s] always suffices, since every occurrence of a non-empty
    separator consumes at least one code unit. *)
Fixpoint split_loop (fuel : nat) (s sep : jsstring) : list jsstring :=
  match fuel, find_first s sep with
  | S fuel', Some q =>
      firstn q s :: split_loop fuel' (skipn (q + length sep) s) sep
  | _, _ => [s]
  end.

Definition split (s sep : jsstring) : list jsstring :=
  match sep with
  | [] => map (fun c => [c]) s
  | _ :: _ => split_loop (length s) s sep
  end.

(** White space and line terminators removed by [trim], among the code
    units below 256. *)
Definition isWhiteSpace (c : ascii) : bool :=
  let n := nat_of_ascii c in
  (n =? 9) || (n =? 10) || (n =? 11) || (n =? 12) || (n =? 13)
  || (n =? 32) || (n =? 160).

Fixpoint trimStart (s : jsstring) : jsstring :=
  match s with
  | c :: s' => if isWhiteSpace c then trimStart s' else s
  | [] => []
  end.

Definition trim (s : jsstring) : jsstring :=
  rev (trimStart (rev (trimStart s))).

(** The carriage return, written [\r] in the source. *)
Definition CR : ascii := ascii_of_nat 13.

(** What a text area makes of a string that is written to it or pasted
    into it.  The value it reports never holds a carriage return: a
    carriage return directly followed by a line feed reads as one line
    feed, and so does a lone carriage return. *)
Fixpoint normalizeNewlines (s : jsstring) : jsstring :=
  match s with
  | [] => []
  | c :: s' =>
      if Ascii.eqb c CR then
        match s' with
        | d :: s'' =>
            if Ascii.eqb d LF then LF :: normalizeNewlines s''
            else LF :: normalizeNewlines s'
        | [] => [LF]
        end
      else c :: normalizeNewlines s'
  end.

(** [(s.match(/\n/g) || []).length]: the number of line feeds. *)
Definition count_newlines (s : jsstring) : nat :=
  length (filter (Ascii.eqb LF) s).

End JS.

(* ================================================================== *)
(** * Application constants *)
(* ================================================================== *)

(** [constants/appConstants] is imported by both components; only the shape
    of what it exports is fixed here.  The values ([SNIPPET_MARKERS],
    [MAX_ROWS], [MAX_IMAGE_ATTACHMENTS_PER_MESSAGE]) are section variables
    below, so that every result holds for whatever the constants are. *)
Module AppConstants.

Record SnippetMarkers : Type := {
  begin : JS.jsstring;
  end_ : JS.jsstring
}.

End AppConstants.

(* ================================================================== *)
(** * UserContentBlock.tsx: the snippet segmentation parser *)
(* ================================================================== *)

Module UserContentBlock.
Import JS AppConstants.

(** React keys: [`text-${index}`], [`foldable-${index}`],
    [`text-after-${index}`] and [`text-start-${index}`]. *)
Inductive Key : Type :=
| KeyText (index : nat)
| KeyFoldable (index : nat)
| KeyTextAfter (index : nat)
| KeyTextStart (index : nat).

(** The three kinds of element [processText] pushes. *)
Inductive Element : Type :=
| Fragment (key : Key)
    (* <React.Fragment key={key}></React.Fragment> *)
| MarkdownSection (key : Key) (content : jsstring)
    (* <div key={key} ...><MarkdownBlock markdown={content} .../></div> *)
| FoldableTextSection (key : Key) (content : jsstring).
    (* <FoldableTextSection key={key} content={content}/> *)

(** The segments of the specification's data model, and how an element is
    read as one: a markdown section is prose, an empty fragment is the
    rendering of empty prose, a foldable section is a snippet. *)
Inductive Segment : Type :=
| Prose (text : jsstring)
| Snippet (text : jsstring).

Definition segment_of (e : Element) : Segment :=
  match e with
  | Fragment _ => Prose []
  | MarkdownSection _ content => Prose content
  | FoldableTextSection _ content => Snippet content
  end.

Definition snippets (es : list Element) : list jsstring :=
  flat_map (fun e => match e with
                     | FoldableTextSection _ c => [c]
                     | _ => []
                     end) es.

(** [Array.prototype.forEach] with the callback's effect on the enclosing
    [sections] array made explicit: the callback maps the array before the
    call to the array after it. *)
Fixpoint forEach {A B : Type} (callback : B -> A -> nat -> B)
         (l : list A) (index : nat) (sections : B) : B :=
  match l with
  | [] => sections
  | x :: l' => forEach callback l' (S index) (callback sections x index)
  end.

Section Parser.

Variable SNIPPET_MARKERS : SnippetMarkers.

Definition renderMarkdownSection (content : jsstring) (key : Key) : Element :=
  if negb (truthy content) then Fragment key
  else MarkdownSection key content.

(** The body of the callback passed to [forEach] in [processText]. *)
Definition processSection (sections : list Element) (section : jsstring)
           (index : nat) : list Element :=
  if (index =? 0) && negb (includes section (end_ SNIPPET_MARKERS)) then
    sections ++ [renderMarkdownSection section (KeyText index)]
  else
    let endSnippetIndex := indexOf section (end_ SNIPPET_MARKERS) in
    if negb (endSnippetIndex =? -1)%Z then
      let snippet := substring section 0 endSnippetIndex in
      let sections :=
        sections ++ [FoldableTextSection (KeyFoldable index) snippet] in
      let remainingText :=
        substring_from section
          (endSnippetIndex + Z.of_nat (length (end_ SNIPPET_MARKERS))) in
      if truthy remainingText then
        sections ++ [renderMarkdownSection remainingText (KeyTextAfter index)]
      else sections
    else
      sections ++ [renderMarkdownSection section (KeyTextStart index)].

Definition processText (inputText : jsstring) : list Element :=
  forEach processSection (split inputText (begin SNIPPET_MARKERS)) 0 [].

End Parser.

End UserContentBlock.

(* ================================================================== *)
(** * MessageBox.tsx: the composer *)
(* ================================================================== *)

Module MessageBox.
Import JS AppConstants.

(** ** The DOM text area *)

(** What the component reads and writes of the [HTMLTextAreaElement]:
    its value and its selection.  [value] is what [textArea.value]
    reports, line breaks normalised; the selection counts in that text.
    Layout ([style.height], [scrollTop]) is not part of the model. *)
Record TextArea : Type := {
  value : jsstring;
  selectionStart : nat;
  selectionEnd : nat
}.

(** [setSelectionRange]: both ends are clamped to the length of the value
    and the start never lies behind the end. *)
Definition setSelectionRange (s e : nat) (ta : TextArea) : TextArea :=
  let e' := Nat.min e (length (value ta)) in
  {| value := value ta; selectionStart := Nat.min s e'; selectionEnd := e' |}.

(** [ta.selectionStart = v]: an end in front of the new start moves along. *)
Definition set_selectionStart (v : nat) (ta : TextArea) : TextArea :=
  setSelectionRange v (Nat.max (selectionEnd ta) v) ta.

(** [ta.selectionEnd = v]. *)
Definition set_selectionEnd (v : nat) (ta : TextArea) : TextArea :=
  setSelectionRange (selectionStart ta) v ta.

(** [ta.value = v]: the text area takes the string with its line breaks
    normalised; a text that differs from the current one moves the cursor
    to its end. *)
Definition set_value (v : jsstring) (ta : TextArea) : TextArea :=
  let v' := normalizeNewlines v in
  if eqb v' (value ta) then ta
  else {| value := v'; selectionStart := length v';
          selectionEnd := length v' |}.

(** ** Attachments *)

Record FileData : Type := {
  data : jsstring;
  type : jsstring;
  source : jsstring;
  filename : jsstring
}.

Record FileDataRef : Type := {
  id : nat;
  fileData : FileData
}.

(** A browser [File]: its MIME type and name, and what a [FileReader]
    delivers for it ([None]: the read fails). *)
Record File : Type := {
  file_type : jsstring;
  file_name : jsstring;
  readAsDataURL : option jsstring;
  readAsText : option jsstring
}.

(** ** Component state *)

Record Selection : Type := {
  start : nat;
  end' : nat
}.

(** Callbacks that run in a later turn of the event loop: the [setTimeout]
    bodies and the completions of asynchronous decodes. *)
Inductive Task : Type :=
| FocusComposer
    (* the timeout of [focusComposer] *)
| MoveCursor (newCursorPos : nat)
    (* the timeout of [insertTextAtCursorPosition] *)
| AppendFile (f : FileDataRef)
    (* the callback handed to [preprocessImage] *)
| TextFileLoaded (name : jsstring) (result : option jsstring)
    (* [reader.onloadend] of a picked text file *)
| CursorToEnd (newCursorPos : nat).
    (* the timeout inside [reader.onloadend] *)

(** Calls on the collaborators received as props or imported. *)
Inductive Call : Type :=
| CallApp (messageText : jsstring) (files : list FileDataRef)
| CancelStream
| SetLoading (flag : bool).

(** The props [loading] and [allowImageAttachment], the refs and the state
    variables of the component, the queue of pending callbacks, and the log
    of calls made on collaborators ([callApp], [ChatService.cancelStream],
    [setLoading]) in the order they were made. *)
Record State : Type := {
  loading : bool;
  allowImageAttachment : jsstring;
  textValue : jsstring;
  isTextEmpty : bool;
  textAreaRef : option TextArea;
  selectionRef : Selection;
  fileDataRef : list FileDataRef;
  isExpanded : bool;
  draftText : jsstring;
  pending : list Task;
  calls : list Call
}.

Definition with_loading (v : bool) (st : State) : State :=
  {| loading := v; allowImageAttachment := allowImageAttachment st;
     textValue := textValue st; isTextEmpty := isTextEmpty st;
     textAreaRef := textAreaRef st; selectionRef := selectionRef st;
     fileDataRef := fileDataRef st; isExpanded := isExpanded st;
     draftText := draftText st; pending := pending st; calls := calls st |}.

Definition setTextValue (v : jsstring) (st : State) : State :=
  {| loading := loading st; allowImageAttachment := allowImageAttachment st;
     textValue := v; isTextEmpty := isTextEmpty st;
     textAreaRef := textAreaRef st; selectionRef := selectionRef st;
     fileDataRef := fileDataRef st; isExpanded := isExpanded st;
     draftText := draftText st; pending := pending st; calls := calls st |}.

Definition setIsTextEmpty (v : bool) (st : State) : State :=
  {| loading := loading st; allowImageAttachment := allowImageAttachment st;
     textValue := textValue st; isTextEmpty := v;
     textAreaRef := textAreaRef st; selectionRef := selectionRef st;
     fileDataRef := fileDataRef st; isExpanded := isExpanded st;
     draftText := draftText st; pending := pending st; calls := calls st |}.

Definition with_textArea (v : option TextArea) (st : State) : State :=
  {| loading := loading st; allowImageAttachment := allowImageAttachment st;
     textValue := textValue st; isTextEmpty := isTextEmpty st;
     textAreaRef := v; selectionRef := selectionRef st;
     fileDataRef := fileDataRef st; isExpanded := isExpanded st;
     draftText := draftText st; pending := pending st; calls := calls st |}.

Definition with_selectionRef (v : Selection) (st : State) : State :=
  {| loading := loading st; allowImageAttachment := allowImageAttachment st;
     textValue := textValue st; isTextEmpty := isTextEmpty st;
     textAreaRef := textAreaRef st; selectionRef := v;
     fileDataRef := fileDataRef st; isExpanded := isExpanded st;
     draftText := draftText st; pending := pending st; calls := calls st |}.

Definition setFileDataRef (v : list FileDataRef) (st : State) : State :=
  {| loading := loading st; allowImageAttachment := allowImageAttachment st;
     textValue := textValue st; isTextEmpty := isTextEmpty st;
     textAreaRef := textAreaRef st; selectionRef := selectionRef st;
     fileDataRef := v; isExpanded := isExpanded st;
     draftText := draftText st; pending := pending st; calls := calls st |}.

Definition setIsExpanded (v : bool) (st : State) : State :=
  {| loading := loading st; allowImageAttachment := allowImageAttachment st;
     textValue := textValue st; isTextEmpty := isTextEmpty st;
     textAreaRef := textAreaRef st; selectionRef := selectionRef st;
     fileDataRef := fileDataRef st; isExpanded := v;
     draftText := draftText st; pending := pending st; calls := calls st |}.

Definition setDraftText (v : jsstring) (st : State) : State :=
  {| loading := loading st; allowImageAttachment := allowImageAttachment st;
     textValue := textValue st; isTextEmpty := isTextEmpty st;
     textAreaRef := textAreaRef st; selectionRef := selectionRef st;
     fileDataRef := fileDataRef st; isExpanded := isExpanded st;
     draftText := v; pending := pending st; calls := calls st |}.

Definition with_pending (v : list Task) (st : State) : State :=
  {| loading := loading st; allowImageAttachment := allowImageAttachment st;
     textValue := textValue st; isTextEmpty := isTextEmpty st;
     textAreaRef := textAreaRef st; selectionRef := selectionRef st;
     fileDataRef := fileDataRef st; isExpanded := isExpanded st;
     draftText := draftText st; pending := v; calls := calls st |}.

Definition with_calls (v : list Call) (st : State) : State :=
  {| loading := loading st; allowImageAttachment := allowImageAttachment st;
     textValue := textValue st; isTextEmpty := isTextEmpty st;
     textAreaRef := textAreaRef st; selectionRef := selectionRef st;
     fileDataRef := fileDataRef st; isExpanded := isExpanded st;
     draftText := draftText st; pending := pending st; calls := v |}.

(** [setTimeout(task, 0)] and the start of an asynchronous decode: the
    callback joins the queue. *)
Definition defer (t : Task) (st : State) : State :=
  with_pending (pending st ++ [t]) st.

Definition call (c : Call) (st : State) : State :=
  with_calls (calls st ++ [c]) st.

(** The props' collaborators.  [setLoading] is the setter of the state the
    parent passes back as the prop [loading]. *)
Definition callApp (messageText : jsstring) (files : list FileDataRef)
           (st : State) : State :=
  call (CallApp messageText files) st.

Definition cancelStream (st : State) : State := call CancelStream st.

Definition setLoading (flag : bool) (st : State) : State :=
  with_loading flag (call (SetLoading flag) st).

(** A write through [textAreaRef.current], guarded as in the source by
    [if (textAreaRef.current)]. *)
Definition onTextArea (f : TextArea -> TextArea) (st : State) : State :=
  match textAreaRef st with
  | Some ta => with_textArea (Some (f ta)) st
  | None => st
  end.

(** The component as first rendered, for given props. *)
Definition initial (loading0 : bool) (allow : jsstring) : State :=
  {| loading := loading0; allowImageAttachment := allow;
     textValue := []; isTextEmpty := true;
     textAreaRef :=
       Some {| value := []; selectionStart := 0; selectionEnd := 0 |};
     selectionRef := {| start := 0; end' := 0 |};
     fileDataRef := []; isExpanded := false; draftText := [];
     pending := []; calls := [] |}.

(** ** Events *)

Record DataTransferItem : Type := {
  item_type : jsstring;
  getAsFile : option File
}.

(** A paste event: [clipboardData.items] and
    [clipboardData.getData('text/plain')].  A React clipboard event always
    carries its [clipboardData] with an item list, possibly empty. *)
Record ClipboardEvent : Type := {
  items : list DataTransferItem;
  text_plain : jsstring
}.

Record KeyboardEvent : Type := {
  key : jsstring;
  shiftKey : bool
}.

(** A handler that may call [event.preventDefault()] returns, next to the
    new state, whether it did. *)
Definition Handled : Type := (State * bool)%type.

Section Composer.

Variable SNIPPET_MARKERS : SnippetMarkers.
Variable MAX_ROWS : nat.
Variable MAX_IMAGE_ATTACHMENTS_PER_MESSAGE : nat.

(** [preprocessImage(file, callback)] of [utils/ImageUtils]: the encoded
    data and the processed file it hands to its callback. *)
Variable preprocessImage : File -> jsstring * File.

Definition focusComposer (st : State) : State := defer FocusComposer st.

(** [debouncedResize()] and [handleTextValueUpdated()] only touch the
    layout and leave the state below unchanged. *)
Definition setTextAreaValue (v : jsstring) (st : State) : State :=
  let st := setDraftText v st in
  let st := setTextValue v st in
  let st := setIsTextEmpty (eqb (trim v) []) st in
  let st := onTextArea (set_value v) st in
  with_selectionRef {| start := length v; end' := length v |} st.

Definition clearValueAndUndoHistory (st : State) : State :=
  let st := setFileDataRef [] st in
  let st := setTextValue [] st in
  let st := setTextAreaValue [] st in
  let st := setDraftText [] st in
  with_selectionRef {| start := 0; end' := 0 |} st.

Definition insertTextAtCursorPosition (textToInsert : jsstring)
           (st : State) : State :=
  match textAreaRef st with
  | Some textArea =>
      let startPos := selectionStart textArea in
      let endPos := selectionEnd textArea in
      let text := value textArea in
      let newTextValue :=
        substring text 0 (Z.of_nat startPos)
        ++ textToInsert
        ++ substring_from text (Z.of_nat endPos) in
      let st := setTextValue newTextValue st in
      let st := setTextAreaValue newTextValue st in
      let st := with_selectionRef
                  {| start := startPos + length textToInsert;
                     end' := startPos + length textToInsert |} st in
      let newCursorPos := startPos + length textToInsert in
      defer (MoveCursor newCursorPos) st
  | None => st
  end.

(** The imperative handle ([useImperativeHandle]). *)
Definition clearInputValue (st : State) : State := clearValueAndUndoHistory st.

Definition getTextValue (st : State) : jsstring := textValue st.

Definition reset (st : State) : State :=
  let st := clearValueAndUndoHistory st in
  let st := setTextValue [] st in
  let st := setTextAreaValue [] st in
  setFileDataRef [] st.

Definition focusTextarea (st : State) : State := focusComposer st.

Definition pasteText (text : jsstring) (st : State) : State :=
  insertTextAtCursorPosition text st.

(** *** Paste *)

(** [`${SNIPPET_MARKERS.begin}\n${pastedText}\n${SNIPPET_MARKERS.end}\n`] *)
Definition wrapSnippet (pastedText : jsstring) : jsstring :=
  begin SNIPPET_MARKERS ++ [LF] ++ pastedText ++ [LF]
  ++ end_ SNIPPET_MARKERS ++ [LF].

(** The attachment the paste path appends once a pasted image is decoded. *)
Definition pastedImage (file : File) : FileDataRef :=
  let '(base64Data, processedFile) := preprocessImage file in
  {| id := 0;
     fileData := {| data := base64Data;
                    type := file_type processedFile;
                    source := str "pasted";
                    filename := str "pasted-image" |} |}.

(** The condition of the [for] loop of [handlePaste]:
    [item.type.indexOf("image") === 0 && allowImageAttachment !== 'no']. *)
Definition image_accepted (st : State) (item : DataTransferItem) : bool :=
  (indexOf (item_type item) (str "image") =? 0)%Z
  && negb (eqb (allowImageAttachment st) (str "no")).

(** The [for (const item of items)] loop.  The file reader's [onload] and
    the callback of [preprocessImage] run later: the append is deferred. *)
Fixpoint pasteItems (l : list DataTransferItem) (h : Handled) : Handled :=
  match l with
  | [] => h
  | item :: l' =>
      let '(st, prevented) := h in
      if image_accepted st item then
        let st :=
          match getAsFile item with
          | Some file =>
              match readAsDataURL file with
              | Some _ => defer (AppendFile (pastedImage file)) st
              | None => st
              end
          | None => st
          end in
        pasteItems l' (st, true)
      else pasteItems l' (st, prevented)
  end.

(** [newlineCount >= MAX_ROWS || pastedText.length > 80 * MAX_ROWS] *)
Definition oversized (pastedText : jsstring) : bool :=
  (MAX_ROWS <=? count_newlines pastedText)
  || (80 * MAX_ROWS <? length pastedText).

Definition handlePaste (event : ClipboardEvent) (st : State) : Handled :=
  let '(st, prevented) := pasteItems (items event) (st, false) in
  let pastedText := text_plain event in
  let containsBeginMarker := includes pastedText (begin SNIPPET_MARKERS) in
  let containsEndMarker := includes pastedText (end_ SNIPPET_MARKERS) in
  if containsBeginMarker || containsEndMarker then (st, prevented)
  else if oversized pastedText then
    let modifiedText := wrapSnippet pastedText in
    (insertTextAtCursorPosition modifiedText st, true)
  else (st, prevented).

(** *** Keyboard, typing, submit and cancel *)

Definition checkForSpecialKey (e : KeyboardEvent) (st : State) : Handled :=
  let isEnter := eqb (key e) (str "Enter") in
  if isEnter then
    if shiftKey e then (st, false)
    else if negb (loading st) then
      let files := fileDataRef st in
      let st :=
        match textAreaRef st with
        | Some currentTarget =>
            with_selectionRef {| start := selectionStart currentTarget;
                                 end' := selectionEnd currentTarget |} st
        | None => st
        end in
      let messageText := draftText st in
      let st := setTextValue messageText st in
      let st := callApp messageText
                  (if eqb (allowImageAttachment st) (str "yes")
                   then files else []) st in
      let st := setTextAreaValue [] st in
      let st := setIsExpanded false st in
      let st := with_selectionRef {| start := 0; end' := 0 |} st in
      (focusComposer st, true)
    else (st, false)
  else (st, false).

(** [event.target] is the text area after the browser applied the edit. *)
Definition handleTextChange (target : TextArea) (st : State) : State :=
  let newValue := value target in
  let st := with_selectionRef {| start := selectionStart target;
                                 end' := selectionEnd target |} st in
  let st := setIsTextEmpty (eqb (trim newValue) []) st in
  let st := setDraftText newValue st in
  setTextValue newValue st.

Definition handleSubmit (st : State) : State :=
  let files := fileDataRef st in
  let messageText := draftText st in
  let st := setTextValue messageText st in
  let st := callApp messageText
              (if eqb (allowImageAttachment st) (str "yes")
               then files else []) st in
  let st := setTextAreaValue [] st in
  let st := setIsExpanded false st in
  let st := with_selectionRef {| start := 0; end' := 0 |} st in
  focusComposer st.

Definition handleCancel (st : State) : State :=
  let st := cancelStream st in
  setLoading false st.

(** *** Attachments *)

(** The attachment the picker path appends for a picked image. *)
Definition pickedImage (file : File) : FileDataRef :=
  let '(base64Data, processedFile) := preprocessImage file in
  {| id := 0;
     fileData := {| data := base64Data;
                    type := file_type processedFile;
                    source := str "filename";
                    filename := file_name processedFile |} |}.

(** [fileInput.onchange], set up by [handleAttachment].  [rendered] is the
    state of the render whose [handleAttachment] opened the dialog:
    [fileDataRef.length] inside the closure is the length seen by that
    render, whatever has been appended since. *)
Definition attachFile (rendered : State) (st : State) (file : File)
           (index : nat) : State :=
  if startsWith (file_type file) (str "image/") then
    if MAX_IMAGE_ATTACHMENTS_PER_MESSAGE <=? length (fileDataRef rendered)
    then st
    else defer (AppendFile (pickedImage file)) st
  else if startsWith (file_type file) (str "text/") then
    defer (TextFileLoaded (file_name file) (readAsText file)) st
  else st.

Definition handleAttachment (rendered : State) (files : list File)
           (st : State) : State :=
  UserContentBlock.forEach (attachFile rendered) files 0 st.

Definition removeAt {A : Type} (index : nat) (l : list A) : list A :=
  firstn index l ++ skipn (S index) l.

(** [fileDataRef.filter((_, i) => i !== index)] *)
Definition handleRemoveFileData (index : nat) (st : State) : State :=
  setFileDataRef (removeAt index (fileDataRef st)) st.

(** *** Expanded mode *)

Definition captureSelection (st : State) : State :=
  match textAreaRef st with
  | Some ta => with_selectionRef {| start := selectionStart ta;
                                    end' := selectionEnd ta |} st
  | None => st
  end.

Definition handleExpandEditor (st : State) : State :=
  setIsExpanded true (captureSelection st).

Definition handleCollapseEditor (st : State) : State :=
  focusComposer (setIsExpanded false (captureSelection st)).

(** *** Deferred callbacks *)

Definition runTask (t : Task) (st : State) : State :=
  match t with
  | FocusComposer =>
      let sel := selectionRef st in
      onTextArea (fun ta => set_selectionEnd (end' sel)
                              (set_selectionStart (start sel) ta)) st
  | MoveCursor newCursorPos =>
      onTextArea (fun ta => set_selectionEnd newCursorPos
                              (set_selectionStart newCursorPos ta)) st
  | AppendFile f =>
      setFileDataRef (fileDataRef st ++ [f]) st
  | TextFileLoaded name result =>
      let textContent :=
        match result with Some t => t | None => str "null" end in
      let formattedText :=
        str "File: " ++ name ++ str ":" ++ [LF]
        ++ begin SNIPPET_MARKERS ++ [LF] ++ textContent ++ [LF]
        ++ end_ SNIPPET_MARKERS ++ [LF] in
      let st := insertTextAtCursorPosition formattedText st in
      let st := captureSelection st in
      match textAreaRef st with
      | Some textArea => defer (CursorToEnd (length (value textArea))) st
      | None => st
      end
  | CursorToEnd newCursorPos =>
      onTextArea (fun ta => set_selectionEnd newCursorPos
                              (set_selectionStart newCursorPos ta)) st
  end.

(** One turn of the event loop: the oldest pending callback runs. *)
Definition step (st : State) : State :=
  match pending st with
  | [] => st
  | t :: rest => runTask t (with_pending rest st)
  end.

Fixpoint run (n : nat) (st : State) : State :=
  match n with
  | 0 => st
  | S n' => run n' (step st)
  end.

(** *** The browser's default actions *)

(** What the browser does with an input the handlers did not prevent: the
    selected range of the text area is replaced by the text, line breaks
    normalised, the cursor lands behind it, and React delivers the change
    to [handleTextChange].  An empty text is no input: nothing changes and
    no change is delivered. *)
Definition nativeInput (text : jsstring) (st : State) : State :=
  match textAreaRef st with
  | Some ta =>
      let inserted := normalizeNewlines text in
      if truthy inserted then
        let pos := selectionStart ta + length inserted in
        let target :=
          {| value := firstn (selectionStart ta) (value ta) ++ inserted
                      ++ skipn (selectionEnd ta) (value ta);
             selectionStart := pos; selectionEnd := pos |} in
        handleTextChange target (with_textArea (Some target) st)
      else st
  | None => st
  end.

(** [onPaste]: the handler, then the native paste unless prevented. *)
Definition paste (event : ClipboardEvent) (st : State) : State :=
  let '(st', prevented) := handlePaste event st in
  if prevented then st' else nativeInput (text_plain event) st'.

(** [onKeyDown] for the Enter key: the handler, then the native line
    break unless prevented. *)
Definition pressEnter (shift : bool) (st : State) : State :=
  let '(st', prevented) :=
    checkForSpecialKey {| key := str "Enter"; shiftKey := shift |} st in
  if prevented then st' else nativeInput [LF] st'.

End Composer.

End MessageBox.

(* ================================================================== *)
(** * Sample configuration and the statements under test *)
(* ================================================================== *)

Import JS AppConstants.

(** A concrete configuration for the worked examples: a pair of markers,
    twenty visible rows, at most two images per message, and an image
    preprocessor that keeps the file and returns a fixed encoding. *)
Module Sample.

Definition markers : SnippetMarkers :=
  {| begin := str "----BEGIN-SNIPPET----";
     end_ := str "----END-SNIPPET----" |}.

Definition max_rows : nat := 20.

Definition max_images : nat := 2.

Definition preprocess (f : MessageBox.File) : jsstring * MessageBox.File :=
  (str "base64", f).

Definition png : MessageBox.File :=
  {| MessageBox.file_type := str "image/png";
     MessageBox.file_name := str "shot.png";
     MessageBox.readAsDataURL := Some (str "data:image/png;base64,AAAA");
     MessageBox.readAsText := None |}.

Definition png_item : MessageBox.DataTransferItem :=
  {| MessageBox.item_type := str "image/png";
     MessageBox.getAsFile := Some png |}.

(** A paste that carries a screenshot and nothing else. *)
Definition image_only : MessageBox.ClipboardEvent :=
  {| MessageBox.items := [png_item]; MessageBox.text_plain := [] |}.

(** A paste that carries an image next to a short text, as a copy from a
    spreadsheet or a word processor does. *)
Definition image_and_text : MessageBox.ClipboardEvent :=
  {| MessageBox.items := [png_item]; MessageBox.text_plain := str "hi" |}.

(** The same with a text that is a snippet marker. *)
Definition image_and_marker : MessageBox.ClipboardEvent :=
  {| MessageBox.items := [png_item];
     MessageBox.text_plain := begin markers |}.

(** Three images at once, one more than [max_images]. *)
Definition three_images : MessageBox.ClipboardEvent :=
  {| MessageBox.items := [png_item; png_item; png_item];
     MessageBox.text_plain := [] |}.

Definition three_files : list MessageBox.File := [png; png; png].

(** Twenty-five short lines, five more than [max_rows]. *)
Definition long_text : jsstring :=
  concat (repeat (str "line" ++ [LF]) 25).

Definition long_paste : MessageBox.ClipboardEvent :=
  {| MessageBox.items := []; MessageBox.text_plain := long_text |}.

(** A text copied out of an earlier message, markers included. *)
Definition marked_text : jsstring :=
  begin markers ++ [LF] ++ str "kept" ++ [LF] ++ end_ markers ++ [LF].

Definition marked_paste : MessageBox.ClipboardEvent :=
  {| MessageBox.items := []; MessageBox.text_plain := marked_text |}.

(** The composer of a parent that allows images, idle. *)
Definition fresh : MessageBox.State :=
  MessageBox.initial false (str "yes").

(** The user typed hello. *)
Definition typed_hello : MessageBox.State :=
  MessageBox.nativeInput (str "hello") fresh.


(** Two lines with an empty one between them, the lines ended by a
    carriage return and a line feed, as a text file from Windows has
    them. *)
Definition two_lines : jsstring := str "a" ++ [CR; LF; CR; LF] ++ str "b".

(** The user pasted a screenshot, waited for it to show up among the
    attachments, and typed hello. *)
Definition hello_with_image : MessageBox.State :=
  MessageBox.nativeInput (str "hello")
    (MessageBox.run markers 1
       (fst (MessageBox.handlePaste markers max_rows preprocess
               image_only fresh))).

(** A reply is streaming while the user has the expanded editor open. *)
Definition expanded_while_loading : MessageBox.State :=
  MessageBox.handleExpandEditor (MessageBox.initial true (str "yes")).

End Sample.

Section Statements.

Variable SNIPPET_MARKERS : SnippetMarkers.

(** The markers the composer's wrapping relies on: each sits on a line of
    its own, so neither contains a line feed, and the begin marker does not
    occur inside the end marker. *)
Definition well_formed_markers : Prop :=
  ~ In LF (begin SNIPPET_MARKERS) /\
  ~ In LF (end_ SNIPPET_MARKERS) /\
  includes (end_ SNIPPET_MARKERS) (begin SNIPPET_MARKERS) = false.

(** Equality up to one trailing line feed. *)
Definition eq_mod_trailing_newline (a b : jsstring) : Prop :=
  a = b \/ a = b ++ [LF] \/ b = a ++ [LF].

(** The round trip as the specification words it: parsing the wrapped text
    yields exactly one snippet, whose content is the text itself up to a
    single trailing line feed. *)
Definition roundtrip_as_specified (T : jsstring) : Prop :=
  exists content,
    UserContentBlock.snippets
      (UserContentBlock.processText SNIPPET_MARKERS
         (MessageBox.wrapSnippet SNIPPET_MARKERS T)) = [content] /\
    eq_mod_trailing_newline content T.

(** What the wrapping puts between the two markers, and everything it puts
    behind the begin marker. *)
Definition wrapped_body (T : jsstring) : jsstring := [LF] ++ T ++ [LF].

Definition wrapped_rest (T : jsstring) : jsstring :=
  wrapped_body T ++ end_ SNIPPET_MARKERS ++ [LF].

(** The text in front of the first begin marker, the whole text when there
    is none. *)
Definition before_first_begin (inputText : jsstring) : jsstring :=
  match find_first inputText (begin SNIPPET_MARKERS) with
  | Some q => firstn q inputText
  | None => inputText
  end.

End Statements.

Section ComposerStatements.

Import MessageBox.

(** Two states hold the same text: buffer, its mirrors and the selection. *)
Definition same_buffer (a b : State) : Prop :=
  draftText a = draftText b /\
  textValue a = textValue b /\
  isTextEmpty a = isTextEmpty b /\
  textAreaRef a = textAreaRef b /\
  selectionRef a = selectionRef b.

(** The selection of the text area lies inside its value. *)
Definition valid_selection (ta : TextArea) : Prop :=
  selectionStart ta <= selectionEnd ta /\
  selectionEnd ta <= length (value ta).

(** The selected range of the text area replaced by [text]. *)
Definition spliced (ta : TextArea) (text : jsstring) : jsstring :=
  firstn (selectionStart ta) (value ta) ++ text
  ++ skipn (selectionEnd ta) (value ta).

Variable preprocessImage : File -> jsstring * File.

(** The attachments a paste event gives rise to: one for every item the
    loop of [handlePaste] accepts and whose file can be read. *)
Definition ingested (st : State) (l : list DataTransferItem)
  : list FileDataRef :=
  flat_map (fun item =>
              if image_accepted st item then
                match getAsFile item with
                | Some file =>
                    match readAsDataURL file with
                    | Some _ => [pastedImage preprocessImage file]
                    | None => []
                    end
                | None => []
                end
              else []) l.

(** An item the paste loop turns into an attachment. *)
Definition readable_image (st : State) (item : DataTransferItem) : Prop :=
  image_accepted st item = true /\
  exists file, getAsFile item = Some file /\ readAsDataURL file <> None.

End ComposerStatements.

(* ================================================================== *)
(** * More of the two components *)
(* ================================================================== *)

(** ** String operations used outside the paste and parse paths *)

Module JSMore.
Import JS.

(** [c.toLowerCase()] on one code unit below 256: the letters A to Z and
    the accented capitals of Latin-1. *)
Definition lower (c : ascii) : ascii :=
  let n := nat_of_ascii c in
  if ((65 <=? n) && (n <=? 90))
     || ((192 <=? n) && (n <=? 222) && negb (n =? 215))
  then ascii_of_nat (n + 32) else c.

Definition toLowerCase (s : jsstring) : jsstring := map lower s.

(** [s.split(/\r\n|\r|\n/)], with [cur] the code units of the line being
    read: a carriage return directly followed by a line feed is one break,
    a lone carriage return or line feed is one break each. *)
Fixpoint splitLines (s cur : jsstring) : list jsstring :=
  match s with
  | [] => [cur]
  | c :: s' =>
      if Ascii.eqb c CR then
        match s' with
        | d :: s'' =>
            if Ascii.eqb d LF then cur :: splitLines s'' []
            else cur :: splitLines s' []
        | [] => cur :: splitLines s' []
        end
      else if Ascii.eqb c LF then cur :: splitLines s' []
      else splitLines s' (cur ++ [c])
  end.

(** Whether some carriage return in [s] is not directly followed by a line
    feed. *)
Fixpoint loneCR (s : jsstring) : bool :=
  match s with
  | [] => false
  | c :: s' =>
      if Ascii.eqb c CR then
        match s' with
        | d :: s'' => if Ascii.eqb d LF then loneCR s'' else true
        | [] => true
        end
      else loneCR s'
  end.

(** [pieces.join(sep)], the inverse the facts about [split] are stated
    with. *)
Fixpoint join (sep : jsstring) (pieces : list jsstring) : jsstring :=
  match pieces with
  | [] => []
  | [p] => p
  | p :: ps => p ++ sep ++ join sep ps
  end.

End JSMore.

(** ** UserContentBlock.tsx: what an element stands for *)

Module UserContentBlockMore.
Import JS AppConstants UserContentBlock.

Definition key_of (e : Element) : Key :=
  match e with
  | Fragment k => k
  | MarkdownSection k _ => k
  | FoldableTextSection k _ => k
  end.

(** The index of the piece a key was made for. *)
Definition key_index (k : Key) : nat :=
  match k with
  | KeyText i | KeyFoldable i | KeyTextAfter i | KeyTextStart i => i
  end.

Definition content_of (e : Element) : jsstring :=
  match e with
  | Fragment _ => []
  | MarkdownSection _ c => c
  | FoldableTextSection _ c => c
  end.

(** The stretch of input an element was cut from, told by its key: the
    section of a piece behind a begin marker ([text-start-i], and
    [foldable-i] for [i > 0]) had that marker in front of it, and a
    foldable section had the end marker behind it. *)
Definition source_of (M : SnippetMarkers) (e : Element) : jsstring :=
  match key_of e with
  | KeyText _ => content_of e
  | KeyTextAfter _ => content_of e
  | KeyTextStart _ => begin M ++ content_of e
  | KeyFoldable 0 => content_of e ++ end_ M
  | KeyFoldable (S _) => begin M ++ content_of e ++ end_ M
  end.

End UserContentBlockMore.

(** ** MessageBox.tsx: the rest of the component *)

Module MessageBoxMore.
Import JS JSMore AppConstants MessageBox.

(** [fileDataRef.filter((_, i) => i !== index)], element by element. *)
Fixpoint filterIndex {A : Type} (index i : nat) (l : list A) : list A :=
  match l with
  | [] => []
  | x :: l' =>
      if i =? index then filterIndex index (S i) l'
      else x :: filterIndex index (S i) l'
  end.

(** The [lineCount] memo of the expanded editor. *)
Definition lineCount (draftText : jsstring) : nat :=
  if negb (truthy draftText) then 1
  else length (splitLines draftText []).

(** The gutter of the expanded editor:
    [Array.from({length: lineCount}, (_, index) => index + 1)]. *)
Definition lineNumbers (draftText : jsstring) : list nat :=
  map (fun index => index + 1) (seq 0 (lineCount draftText)).

(** [renderStopOrSubmit]: the stop button while a send is outstanding, the
    submit button with its [disabled] and [loading] props otherwise. *)
Inductive Control : Type :=
| StopButton
| SubmitButton (disabled loading : bool).

Definition renderStopOrSubmit (st : State) : Control :=
  if loading st then StopButton
  else SubmitButton (isTextEmpty st || loading st) (loading st).

(** The [keydown] event the window listener receives. *)
Record GlobalKeyboardEvent : Type := {
  g_key : option jsstring;
  g_metaKey : bool;
  g_ctrlKey : bool;
  g_shiftKey : bool
}.

Section Shortcut.

Variable isMacPlatform : bool.

Definition handleGlobalShortcut (event : GlobalKeyboardEvent) (st : State)
  : Handled :=
  let key := option_map toLowerCase (g_key event) in
  let modifierPressed :=
    if isMacPlatform then g_metaKey event else g_ctrlKey event in
  if modifierPressed && g_shiftKey event
     && match key with Some k => eqb k (str "e") | None => false end
  then
    (if isExpanded st then handleCollapseEditor st
     else handleExpandEditor st, true)
  else (st, false).

End Shortcut.

(** *** Everything that can happen to a mounted composer *)

(** The user's inputs, the calls through the imperative handle, and the
    turns of the event loop.  [Change target] is an edit the browser made
    to the text area, reported through [onChange]; [Pick rendered files]
    is a choice of files in a dialog that was opened when the component
    was in the state [rendered]; [RunPending i] lets the pending callback
    at position [i] run, so that callbacks may complete in any order. *)
Inductive Action : Type :=
| Change (target : TextArea)
| Paste (event : ClipboardEvent)
| Enter (shift : bool)
| OtherKey (e : KeyboardEvent)
| Submit
| Cancel
| Pick (rendered : State) (files : list File)
| Remove (index : nat)
| Expand
| Collapse
| Shortcut (event : GlobalKeyboardEvent)
| ClearInputValue
| Reset
| FocusTextarea
| PasteText (text : jsstring)
| RunPending (i : nat).

Section Perform.

Variable SNIPPET_MARKERS : SnippetMarkers.
Variable MAX_ROWS : nat.
Variable MAX_IMAGE_ATTACHMENTS_PER_MESSAGE : nat.
Variable preprocessImage : File -> jsstring * File.
Variable isMacPlatform : bool.

(** The pending callback at position [i] runs and leaves the queue. *)
Definition runPending (i : nat) (st : State) : State :=
  match nth_error (pending st) i with
  | Some t =>
      runTask SNIPPET_MARKERS t
        (with_pending (firstn i (pending st) ++ skipn (S i) (pending st)) st)
  | None => st
  end.

Definition perform (a : Action) (st : State) : State :=
  match a with
  | Change target =>
      match textAreaRef st with
      | Some _ => handleTextChange target (with_textArea (Some target) st)
      | None => st
      end
  | Paste event => paste SNIPPET_MARKERS MAX_ROWS preprocessImage event st
  | Enter shift => pressEnter shift st
  | OtherKey e => fst (checkForSpecialKey e st)
  | Submit => handleSubmit st
  | Cancel => handleCancel st
  | Pick rendered files =>
      handleAttachment MAX_IMAGE_ATTACHMENTS_PER_MESSAGE preprocessImage
        rendered files st
  | Remove index => handleRemoveFileData index st
  | Expand => handleExpandEditor st
  | Collapse => handleCollapseEditor st
  | Shortcut event => fst (handleGlobalShortcut isMacPlatform event st)
  | ClearInputValue => clearInputValue st
  | Reset => reset st
  | FocusTextarea => focusTextarea st
  | PasteText text => pasteText text st
  | RunPending i => runPending i st
  end.

Definition performAll (l : list Action) (st : State) : State :=
  fold_left (fun s a => perform a s) l st.

End Perform.

(** An edit by the browser leaves the selection inside the new value; the
    other actions carry no condition. *)
Definition admissible (a : Action) : Prop :=
  match a with
  | Change target =>
      selectionStart target <= selectionEnd target /\
      selectionEnd target <= length (value target)
  | _ => True
  end.

(** The text an edit by the browser leaves in the text area holds no
    carriage return: it is its own normal form. *)
Definition browser_text (a : Action) : Prop :=
  match a with
  | Change target => normalizeNewlines (value target) = value target
  | _ => True
  end.

(** The mounted text area shows the buffer, line breaks normalised. *)
Definition mirrored (st : State) : Prop :=
  forall ta, textAreaRef st = Some ta ->
    value ta = normalizeNewlines (draftText st).

(** What every handler keeps: the two mirrors of the buffer agree with it,
    the emptiness flag tells whether the trimmed buffer is empty, the text
    area (when mounted) shows a text no longer than the buffer, with its
    selection inside what it shows, and the saved selection lies inside
    the buffer. *)
Definition consistent (st : State) : Prop :=
  textValue st = draftText st /\
  isTextEmpty st = eqb (trim (draftText st)) [] /\
  (forall ta, textAreaRef st = Some ta ->
     length (value ta) <= length (draftText st) /\
     selectionStart ta <= selectionEnd ta /\
     selectionEnd ta <= length (value ta)) /\
  start (selectionRef st) <= end' (selectionRef st) /\
  end' (selectionRef st) <= length (draftText st).

(** A step that makes no call and leaves the props alone. *)
Definition quiet (st' st : State) : Prop :=
  calls st' = calls st /\
  allowImageAttachment st' = allowImageAttachment st.

(** The attachments of every message sent so far. *)
Definition sent_files (st : State) : list (list FileDataRef) :=
  flat_map (fun c => match c with
                     | CallApp _ files => [files]
                     | _ => []
                     end) (calls st).

(** The callbacks [fileInput.onchange] queues for the files that are not
    images: a read for every text file, nothing for any other type. *)
Definition textFileTasks (files : list File) : list Task :=
  flat_map (fun file =>
              if startsWith (file_type file) (str "image/") then []
              else if startsWith (file_type file) (str "text/")
                   then [TextFileLoaded (file_name file) (readAsText file)]
                   else []) files.

(** The text inserted for a picked text file:
    [`File: ${file.name}:\n${begin}\n${textContent}\n${end}\n`]. *)
Definition formattedText (M : SnippetMarkers) (name textContent : jsstring)
  : jsstring :=
  str "File: " ++ name ++ str ":" ++ [LF]
  ++ begin M ++ [LF] ++ textContent ++ [LF] ++ end_ M ++ [LF].

End MessageBoxMore.

(** ** The debounce of the resize *)

(** [debouncedResize] and the timers it owns.  [window.setTimeout] hands
    out a fresh identifier for every timer; [clearTimeout] of a timer that
    has fired or was cleared does nothing.  What the timer runs,
    [handleAutoResize], only touches the layout. *)
Module ResizeScheduler.

Record Timers : Type := {
  resizeTimeoutRef : option nat;
  scheduled : list nat;
  next_id : nat
}.

Definition mounted : Timers :=
  {| resizeTimeoutRef := None; scheduled := []; next_id := 1 |}.

Definition clearTimeout (id : nat) (t : Timers) : Timers :=
  {| resizeTimeoutRef := resizeTimeoutRef t;
     scheduled := filter (fun x => negb (x =? id)) (scheduled t);
     next_id := next_id t |}.

Definition setTimeout (t : Timers) : nat * Timers :=
  (next_id t,
   {| resizeTimeoutRef := resizeTimeoutRef t;
      scheduled := scheduled t ++ [next_id t];
      next_id := S (next_id t) |}).

Definition debouncedResize (t : Timers) : Timers :=
  let t :=
    match resizeTimeoutRef t with
    | Some id => clearTimeout id t
    | None => t
    end in
  let '(id, t) := setTimeout t in
  {| resizeTimeoutRef := Some id;
     scheduled := scheduled t;
     next_id := next_id t |}.

(** The 100 ms of the oldest scheduled timer have passed: it runs and is
    gone.  The ref keeps its identifier. *)
Definition fire (t : Timers) : Timers :=
  match scheduled t with
  | [] => t
  | id :: rest =>
      {| resizeTimeoutRef := resizeTimeoutRef t;
         scheduled := rest;
         next_id := next_id t |}
  end.

Inductive Event : Type := Request | Elapse.

Definition handle (e : Event) (t : Timers) : Timers :=
  match e with
  | Request => debouncedResize t
  | Elapse => fire t
  end.

Definition handleAll (l : list Event) (t : Timers) : Timers :=
  fold_left (fun s e => handle e s) l t.

End ResizeScheduler.

(** ** Further samples *)

Module SampleMore.
Import JS MessageBox MessageBoxMore.

(** A text file whose read succeeds. *)
Definition notes : File :=
  {| file_type := str "text/plain";
     file_name := str "notes.txt";
     readAsDataURL := None;
     readAsText := Some (str "remember the milk") |}.

(** A document that is neither an image nor a text. *)
Definition report : File :=
  {| file_type := str "application/pdf";
     file_name := str "report.pdf";
     readAsDataURL := None;
     readAsText := None |}.

(** The store at the cap of [Sample.max_images]. *)
Definition full : State :=
  run Sample.markers 2
    (fst (handlePaste Sample.markers Sample.max_rows Sample.preprocess
            {| items := [Sample.png_item; Sample.png_item];
               text_plain := [] |}
            Sample.fresh)).

(** The user types hi, pastes a screenshot, waits for it and presses
    Enter. *)
Definition session : list Action :=
  [Change {| value := str "hi"; selectionStart := 2; selectionEnd := 2 |};
   Paste Sample.image_only;
   RunPending 0;
   Enter false].

(** The user types hi, and the parent inserts two lines that end in a
    carriage return and a line feed. *)
Definition windows_session : list Action :=
  [Change {| value := str "hi"; selectionStart := 2; selectionEnd := 2 |};
   PasteText Sample.two_lines;
   RunPending 0].

(** The composer of a parent that only warns about images. *)
Definition warned : State := initial false (str "warn").

End SampleMore.

(* ================================================================== *)
(** * Facts about the string operations *)
(* ================================================================== *)


Section StringFacts.

Implicit Types s pat sep a b : jsstring.

Lemma eqb_true_iff a b : eqb a b = true <-> a = b.
Proof.
  unfold eqb. destruct (list_eq_dec ascii_dec a b); split; congruence.
Qed.

Lemma eqb_false_iff a b : eqb a b = false <-> a <> b.
Proof.
  unfold eqb. destruct (list_eq_dec ascii_dec a b); split; congruence.
Qed.

Lemma eqb_refl a : eqb a a = true.
Proof. now apply eqb_true_iff. Qed.

Lemma startsWith_app pat s : startsWith (pat ++ s) pat = true.
Proof.
  induction pat as [|p pat IH]; simpl; [reflexivity|].
  now rewrite Ascii.eqb_refl, IH.
Qed.

(** A prefix match cuts the string right behind the pattern. *)
Lemma startsWith_split s pat :
  startsWith s pat = true -> s = pat ++ skipn (length pat) s.
Proof.
  revert s. induction pat as [|p pat IH]; intros s H; simpl in *.
  - reflexivity.
  - destruct s as [|c s]; [discriminate|].
    apply andb_true_iff in H as [Hc Hs].
    apply Ascii.eqb_eq in Hc. subst c.
    simpl. f_equal. now apply IH.
Qed.

(** A pattern free of the code unit [c] cannot match across a [c]. *)
Lemma startsWith_app_sep c a s pat :
  ~ In c pat -> startsWith (a ++ c :: s) pat = startsWith a pat.
Proof.
  revert a. induction pat as [|p pat IH]; intros a Hc.
  - now destruct a.
  - destruct a as [|x a]; simpl.
    + destruct (Ascii.eqb_spec p c) as [->|]; [|reflexivity].
      exfalso. apply Hc. now left.
    + rewrite IH; [reflexivity|]. intros Hin. apply Hc. now right.
Qed.

Lemma find_first_app pat s : find_first (pat ++ s) pat = Some 0.
Proof.
  destruct pat as [|p pat]; [now destruct s|].
  change (find_first ((p :: pat) ++ s) (p :: pat))
    with (if startsWith ((p :: pat) ++ s) (p :: pat) then Some 0
          else option_map S (find_first (pat ++ s) (p :: pat))).
  now rewrite startsWith_app.
Qed.

Lemma find_first_nil pat : pat <> [] -> find_first [] pat = None.
Proof. destruct pat; [congruence|reflexivity]. Qed.

Lemma find_first_cons c s pat :
  find_first (c :: s) pat =
  if startsWith (c :: s) pat then Some 0
  else option_map S (find_first s pat).
Proof. reflexivity. Qed.

(** The index [find_first] returns is an occurrence of the pattern... *)
Lemma find_first_occurrence s pat q :
  find_first s pat = Some q ->
  s = firstn q s ++ pat ++ skipn (q + length pat) s.
Proof.
  revert q. induction s as [|c s IH]; intros q H.
  - simpl in H. destruct (startsWith [] pat) eqn:E; [|discriminate].
    injection H as <-. now apply startsWith_split in E.
  - rewrite find_first_cons in H.
    destruct (startsWith (c :: s) pat) eqn:E.
    + injection H as <-. now apply startsWith_split in E.
    + destruct (find_first s pat) as [q'|] eqn:F; [|discriminate].
      injection H as <-. simpl. f_equal. now apply IH.
Qed.

(** ... and no occurrence starts in front of it. *)
Lemma find_first_leftmost s pat q i :
  find_first s pat = Some q -> i < q -> startsWith (skipn i s) pat = false.
Proof.
  revert q i. induction s as [|c s IH]; intros q i H Hi.
  - simpl in H. destruct (startsWith [] pat); [|discriminate].
    injection H as <-. lia.
  - rewrite find_first_cons in H.
    destruct (startsWith (c :: s) pat) eqn:E.
    + injection H as <-. lia.
    + destruct (find_first s pat) as [q'|] eqn:F; [|discriminate].
      injection H as <-. destruct i as [|i]; [exact E|].
      simpl. apply (IH q'); [reflexivity|lia].
Qed.

(** [find_first] fails only when the pattern occurs nowhere. *)
Lemma find_first_none s pat pre post :
  find_first s pat = None -> s <> pre ++ pat ++ post.
Proof.
  revert s. induction pre as [|x pre IH]; intros s H ->.
  - simpl in H. rewrite find_first_app in H. discriminate.
  - change ((x :: pre) ++ pat ++ post) with (x :: (pre ++ pat ++ post)) in H.
    rewrite find_first_cons in H.
    destruct (startsWith _ pat); [discriminate|].
    destruct (find_first (pre ++ pat ++ post) pat) eqn:F; [discriminate|].
    now apply (IH _ F).
Qed.

Lemma find_first_le s pat q : find_first s pat = Some q -> q <= length s.
Proof.
  revert q. induction s as [|c s IH]; intros q H.
  - simpl in H. destruct (startsWith [] pat); [|discriminate].
    injection H as <-. lia.
  - rewrite find_first_cons in H.
    destruct (startsWith (c :: s) pat).
    + injection H as <-. lia.
    + destruct (find_first s pat) as [q'|]; [|discriminate].
      injection H as <-. specialize (IH q' eq_refl). simpl. lia.
Qed.

Lemma find_first_bound s pat q :
  find_first s pat = Some q -> q + length pat <= length s.
Proof.
  intros H. pose proof (find_first_le _ _ _ H) as Hle.
  apply find_first_occurrence in H.
  apply (f_equal (@length ascii)) in H.
  rewrite !length_app, length_firstn, length_skipn in H. lia.
Qed.

Lemma find_first_app_sep c a s pat :
  ~ In c pat -> pat <> [] -> find_first a pat = None ->
  find_first (a ++ c :: s) pat =
  option_map (fun i => length a + 1 + i) (find_first s pat).
Proof.
  intros Hc Hne. induction a as [|x a IH]; intros Ha.
  - simpl app. rewrite find_first_cons.
    pose proof (startsWith_app_sep c [] s pat Hc) as E. simpl app in E.
    rewrite E. destruct pat as [|p pat]; [congruence|]. simpl.
    now destruct (find_first s (p :: pat)).
  - rewrite find_first_cons in Ha.
    destruct (startsWith (x :: a) pat) eqn:E; [discriminate|].
    destruct (find_first a pat) eqn:F; [discriminate|].
    change ((x :: a) ++ c :: s) with (x :: (a ++ c :: s)).
    rewrite find_first_cons.
    change (x :: a ++ c :: s) with ((x :: a) ++ c :: s).
    rewrite (startsWith_app_sep c (x :: a) s pat Hc), E, IH by reflexivity.
    now destruct (find_first s pat).
Qed.

Lemma includes_false s pat : includes s pat = false <-> find_first s pat = None.
Proof.
  unfold includes. destruct (find_first s pat); split; congruence.
Qed.

Lemma includes_true s pat :
  includes s pat = true <-> exists q, find_first s pat = Some q.
Proof.
  unfold includes. destruct (find_first s pat) as [q|]; split.
  - intros _. now exists q.
  - reflexivity.
  - discriminate.
  - intros [q H]. discriminate.
Qed.

Lemma includes_false_nonempty s pat : includes s pat = false -> pat <> [].
Proof.
  intros H ->. apply includes_false in H.
  destruct s; simpl in H; discriminate.
Qed.

Lemma indexOf_found s pat q :
  find_first s pat = Some q -> indexOf s pat = Z.of_nat q.
Proof. unfold indexOf. now intros ->. Qed.

Lemma indexOf_missing s pat : find_first s pat = None -> indexOf s pat = (-1)%Z.
Proof. unfold indexOf. now intros ->. Qed.

(** [substring] inside the bounds is [firstn] of [skipn]. *)
Lemma substring_prefix s q :
  substring s 0 (Z.of_nat q) = firstn q s.
Proof.
  unfold substring, clamp. rewrite Nat2Z.id. simpl Z.to_nat.
  rewrite Nat.min_0_l, Nat.max_0_l, Nat.sub_0_r. simpl skipn.
  destruct (Nat.le_ge_cases q (length s)).
  - now rewrite Nat.min_l.
  - rewrite Nat.min_r by assumption. now rewrite !firstn_all2 by lia.
Qed.

Lemma substring_from_suffix s q :
  substring_from s (Z.of_nat q) = skipn q s.
Proof.
  unfold substring_from, substring, clamp. rewrite !Nat2Z.id, Nat.min_id.
  destruct (Nat.le_ge_cases q (length s)).
  - rewrite (Nat.min_l q) by assumption.
    rewrite Nat.min_l, Nat.max_r by assumption.
    apply firstn_all2. rewrite length_skipn. lia.
  - rewrite (Nat.min_r q) by assumption.
    rewrite Nat.min_id, Nat.max_id, Nat.sub_diag.
    now rewrite !skipn_all2 by lia.
Qed.

(** The fuel handed to [split_loop] is enough: more changes nothing. *)
Lemma split_loop_fuel sep :
  sep <> [] ->
  forall n m s, length s <= n -> length s <= m ->
  split_loop n s sep = split_loop m s sep.
Proof.
  intros Hne. induction n as [|n IH]; intros m s Hn Hm.
  - destruct s; [|simpl in Hn; lia].
    destruct m; [reflexivity|]. cbn [split_loop].
    now rewrite (find_first_nil sep Hne).
  - cbn [split_loop]. destruct (find_first s sep) as [q|] eqn:F.
    + pose proof (find_first_bound _ _ _ F) as Hq.
      assert (0 < length sep) by (destruct sep; [congruence|simpl; lia]).
      destruct m as [|m]; [lia|]. cbn [split_loop]. rewrite F. f_equal.
      apply IH; rewrite length_skipn; lia.
    + destruct m; cbn [split_loop]; now rewrite ?F.
Qed.

(** The loop of [split], one occurrence at a time. *)
Lemma split_unfold s sep :
  sep <> [] ->
  split s sep =
  match find_first s sep with
  | Some q => firstn q s :: split (skipn (q + length sep) s) sep
  | None => [s]
  end.
Proof.
  intros Hne. unfold split. destruct sep as [|c sep]; [congruence|].
  destruct (find_first s (c :: sep)) as [q|] eqn:F.
  - pose proof (find_first_bound _ _ _ F) as Hq. simpl length in Hq.
    destruct (length s) as [|n] eqn:L; [lia|].
    cbn [split_loop]. rewrite F. f_equal.
    apply split_loop_fuel; [congruence| |lia].
    rewrite length_skipn. simpl length. lia.
  - destruct (length s); cbn [split_loop]; now rewrite ?F.
Qed.

(** ** Line breaks as a text area holds them *)

Lemma normalizeNewlines_cons c s :
  normalizeNewlines (c :: s) =
  if Ascii.eqb c CR then
    match s with
    | d :: s' =>
        if Ascii.eqb d LF then LF :: normalizeNewlines s'
        else LF :: normalizeNewlines s
    | [] => [LF]
    end
  else c :: normalizeNewlines s.
Proof. reflexivity. Qed.

(** The three facts below go by induction on a bound of the length, as
    the function steps over one or two characters at a time. *)
Lemma normalizeNewlines_facts n s :
  length s <= n ->
  length (normalizeNewlines s) <= length s /\
  ~ In CR (normalizeNewlines s) /\
  (~ In CR s -> normalizeNewlines s = s).
Proof.
  revert s. induction n as [|n IH]; intros s Hn.
  - destruct s; [|simpl in Hn; lia]. simpl. now repeat split.
  - destruct s as [|c s]; [simpl; now repeat split|].
    simpl in Hn. rewrite normalizeNewlines_cons.
    destruct (Ascii.eqb c CR) eqn:Ec.
    + apply Ascii.eqb_eq in Ec. subst c.
      destruct s as [|d s].
      * repeat split; [simpl; lia| |].
        -- intros [H|[]]. discriminate H.
        -- intros H. exfalso. apply H. now left.
      * destruct (Ascii.eqb d LF) eqn:Ed.
        -- simpl in Hn. destruct (IH s ltac:(lia)) as (Hl & Hc & _).
           repeat split.
           ++ simpl. lia.
           ++ intros [H|H]; [discriminate H|]. now apply Hc.
           ++ intros H. exfalso. apply H. now left.
        -- destruct (IH (d :: s) ltac:(simpl in *; lia)) as (Hl & Hc & _).
           repeat split.
           ++ simpl in *. lia.
           ++ intros [H|H]; [discriminate H|]. now apply Hc.
           ++ intros H. exfalso. apply H. now left.
    + destruct (IH s ltac:(lia)) as (Hl & Hc & Hi).
      repeat split.
      * simpl. lia.
      * intros [H|H]; [|now apply Hc].
        subst c. now rewrite Ascii.eqb_refl in Ec.
      * intros H. f_equal. apply Hi. intros F. apply H. now right.
Qed.

(** Normalising never makes a text longer. *)
Lemma normalizeNewlines_length s :
  length (normalizeNewlines s) <= length s.
Proof. now apply (normalizeNewlines_facts (length s) s). Qed.

Lemma normalizeNewlines_noCR s : ~ In CR (normalizeNewlines s).
Proof. now apply (normalizeNewlines_facts (length s) s). Qed.

Lemma normalizeNewlines_id s : ~ In CR s -> normalizeNewlines s = s.
Proof. now apply (normalizeNewlines_facts (length s) s). Qed.

Lemma normalizeNewlines_idem s :
  normalizeNewlines (normalizeNewlines s) = normalizeNewlines s.
Proof. apply normalizeNewlines_id, normalizeNewlines_noCR. Qed.

(** A text that is its own normal form holds no carriage return. *)
Lemma normalized_noCR s : normalizeNewlines s = s -> ~ In CR s.
Proof. intros H. rewrite <- H. apply normalizeNewlines_noCR. Qed.

(** Cutting and joining texts without carriage return gives one. *)
Lemma splice_noCR n m s text :
  ~ In CR s -> ~ In CR text ->
  ~ In CR (firstn n s ++ text ++ skipn m s).
Proof.
  intros Hs Ht H. apply in_app_or in H as [H|H].
  - apply Hs. rewrite <- (firstn_skipn n s). apply in_or_app. now left.
  - apply in_app_or in H as [H|H]; [now apply Ht|].
    apply Hs. rewrite <- (firstn_skipn m s). apply in_or_app. now right.
Qed.

Lemma normalizeNewlines_truthy s :
  truthy (normalizeNewlines s) = truthy s.
Proof.
  destruct s as [|c s]; [reflexivity|]. rewrite normalizeNewlines_cons.
  destruct (Ascii.eqb c CR); [|reflexivity].
  destruct s as [|d s]; [reflexivity|]. now destruct (Ascii.eqb d LF).
Qed.

End StringFacts.

(* ================================================================== *)
(** * The snippet segmentation parser *)
(* ================================================================== *)

Import UserContentBlock.

Section ParserFacts.

Variable M : SnippetMarkers.

Implicit Types (sections : list Element) (piece inputText : jsstring).

(** The callback only ever pushes: what it returns extends what it got. *)
Lemma processSection_push sections piece index :
  processSection M sections piece index =
  sections ++ processSection M [] piece index.
Proof.
  unfold processSection.
  destruct ((index =? 0) && negb (includes piece (end_ M))); [reflexivity|].
  destruct (negb (indexOf piece (end_ M) =? -1)%Z); [|reflexivity].
  destruct (truthy _); simpl; [|reflexivity].
  now rewrite <- app_assoc.
Qed.

Lemma forEach_push pieces : forall index sections,
  forEach (processSection M) pieces index sections =
  sections ++ forEach (processSection M) pieces index [].
Proof.
  induction pieces as [|p pieces IH]; intros index sections; simpl.
  - now rewrite app_nil_r.
  - rewrite IH, (IH _ (processSection M [] p index)), app_assoc.
    now rewrite <- processSection_push.
Qed.

Lemma forEach_app {A B : Type} (f : B -> A -> nat -> B) (l1 l2 : list A) :
  forall index acc,
  forEach f (l1 ++ l2) index acc =
  forEach f l2 (index + length l1) (forEach f l1 index acc).
Proof.
  induction l1 as [|x l1 IH]; intros index acc; simpl.
  - now rewrite Nat.add_0_r.
  - rewrite IH. f_equal. lia.
Qed.

Lemma nth_error_cut {A : Type} (l : list A) : forall n x,
  nth_error l n = Some x -> l = firstn n l ++ x :: skipn (S n) l.
Proof.
  induction l as [|y l IH]; intros [|n] x H; simpl in *; try discriminate.
  - now injection H as ->.
  - f_equal. now apply IH.
Qed.

(** A piece behind a begin marker that holds no end marker. *)
Lemma processSection_unterminated piece i :
  includes piece (end_ M) = false ->
  processSection M [] piece (S i) =
  [renderMarkdownSection piece (KeyTextStart (S i))].
Proof.
  intros H. unfold processSection. simpl Nat.eqb. simpl andb.
  apply includes_false in H. now rewrite (indexOf_missing _ _ H).
Qed.

(** A piece that holds an end marker, other than a first piece without. *)
Lemma processSection_terminated piece index e :
  find_first piece (end_ M) = Some e ->
  processSection M [] piece index =
  FoldableTextSection (KeyFoldable index) (firstn e piece)
  :: (if truthy (skipn (e + length (end_ M)) piece)
      then [MarkdownSection (KeyTextAfter index)
              (skipn (e + length (end_ M)) piece)]
      else []).
Proof.
  intros H. unfold processSection.
  assert (includes piece (end_ M) = true) as ->
      by (apply includes_true; eauto).
  rewrite andb_false_r, (indexOf_found _ _ _ H).
  replace (negb (Z.of_nat e =? -1)%Z) with true
    by (symmetry; apply negb_true_iff, Z.eqb_neq; lia).
  rewrite substring_prefix, <- Nat2Z.inj_add, substring_from_suffix.
  unfold renderMarkdownSection.
  now destruct (truthy (skipn (e + length (end_ M)) piece)).
Qed.

Lemma segment_of_renderMarkdownSection content key :
  segment_of (renderMarkdownSection content key) = Prose content.
Proof. now destruct content. Qed.

(** ** Claim C9 *)

Lemma processSection_nonempty piece index :
  1 <= length (processSection M [] piece index).
Proof.
  unfold processSection.
  destruct ((index =? 0) && negb (includes piece (end_ M))); [simpl; lia|].
  destruct (negb (indexOf piece (end_ M) =? -1)%Z); [|simpl; lia].
  destruct (truthy _); simpl; lia.
Qed.

(** No piece is dropped: each pushes at least one element. *)
Lemma forEach_length pieces : forall index,
  length pieces <= length (forEach (processSection M) pieces index []).
Proof.
  induction pieces as [|p pieces IH]; intros index; simpl; [lia|].
  rewrite forEach_push, length_app.
  pose proof (processSection_nonempty p index).
  specialize (IH (S index)). lia.
Qed.

(** C9.  The parser is total and lenient.  [processText] is a total
    function of its input; the one loop with a bound in it, that of
    [split], never needs more than the fuel it is given, so that any larger
    bound yields the same pieces; and no piece is dropped, each yields at
    least one element.  A piece that follows a begin marker (a piece at a
    position [S i] of the split) and holds no end marker is emitted whole
    as one markdown section, in its place between what the earlier pieces
    and what the later pieces produce; read as a segment it is
    [Prose piece]. *)
Theorem processText_total_lenient inputText :
  let pieces := split inputText (begin M) in
  (forall fuel, begin M <> [] -> length inputText <= fuel ->
     split_loop fuel inputText (begin M) = pieces) /\
  (exists sections,
     processText M inputText = sections /\
     length pieces <= length sections) /\
  (forall i piece,
     nth_error pieces (S i) = Some piece ->
     includes piece (end_ M) = false ->
     let emitted := renderMarkdownSection piece (KeyTextStart (S i)) in
     processText M inputText =
       forEach (processSection M) (firstn (S i) pieces) 0 []
       ++ [emitted]
       ++ forEach (processSection M) (skipn (S (S i)) pieces) (S (S i)) []
     /\ segment_of emitted = Prose piece).
Proof.
  intros pieces. split; [|split].
  - intros fuel Hne Hfuel. subst pieces. unfold split.
    destruct (begin M) as [|c sep] eqn:E; [congruence|].
    apply split_loop_fuel; [congruence|lia|lia].
  - exists (processText M inputText). split; [reflexivity|].
    apply forEach_length.
  - intros i piece Hnth Hend emitted.
    split; [|apply segment_of_renderMarkdownSection].
    unfold processText. fold pieces.
    assert (Hlen : length (firstn (S i) pieces) = S i).
    { apply firstn_length_le.
      assert (S i < length pieces).
      { apply nth_error_Some. rewrite Hnth. discriminate. }
      lia. }
    assert (Hcut : pieces =
                   firstn (S i) pieces ++ piece :: skipn (S (S i)) pieces)
      by (apply nth_error_cut; exact Hnth).
    rewrite Hcut at 1.
    rewrite forEach_app, Hlen. simpl forEach.
    rewrite forEach_push, (processSection_push _ piece).
    rewrite (processSection_unterminated piece i Hend).
    now rewrite <- !app_assoc.
Qed.

(** ** Claim C10 *)

Lemma split_head inputText :
  begin M <> [] ->
  split inputText (begin M) =
  before_first_begin M inputText :: tl (split inputText (begin M)).
Proof.
  intros Hne. rewrite (split_unfold _ _ Hne). unfold before_first_begin.
  now destruct (find_first inputText (begin M)).
Qed.

(** C10.  A stray end marker.  When the text in front of the first begin
    marker (the whole input when there is none) holds the end marker, the
    parser emits what precedes the first end marker in that first piece as
    a foldable snippet, not as prose, then what follows the marker as a
    markdown section if it is not empty, and then whatever the later pieces
    produce. *)
Theorem processText_stray_end_marker inputText :
  begin M <> [] ->
  includes (before_first_begin M inputText) (end_ M) = true ->
  let first := before_first_begin M inputText in
  exists e,
    find_first first (end_ M) = Some e /\
    let snippet := firstn e first in
    let remainingText := skipn (e + length (end_ M)) first in
    first = snippet ++ end_ M ++ remainingText /\
    processText M inputText =
      FoldableTextSection (KeyFoldable 0) snippet
      :: (if truthy remainingText
          then [MarkdownSection (KeyTextAfter 0) remainingText] else [])
      ++ forEach (processSection M) (tl (split inputText (begin M))) 1 [] /\
    segment_of (FoldableTextSection (KeyFoldable 0) snippet) = Snippet snippet.
Proof.
  intros Hne Hinc first.
  apply includes_true in Hinc as [e He]. exists e. split; [exact He|].
  intros snippet remainingText. split; [|split].
  - now apply find_first_occurrence.
  - unfold processText. rewrite (split_head _ Hne). fold first.
    simpl forEach. rewrite forEach_push.
    now rewrite (processSection_terminated first 0 e He).
  - reflexivity.
Qed.

(** ** Claim C2 *)

Section RoundTrip.

Hypothesis Hmarkers : well_formed_markers M.

Variable T : jsstring.
Hypothesis Hbegin : includes T (begin M) = false.
Hypothesis Hend : includes T (end_ M) = false.

Lemma wrapSnippet_shape :
  MessageBox.wrapSnippet M T = begin M ++ wrapped_rest M T.
Proof.
  unfold MessageBox.wrapSnippet, wrapped_rest, wrapped_body.
  now rewrite <- !app_assoc.
Qed.

Lemma rest_lines :
  wrapped_rest M T = [] ++ LF :: (T ++ LF :: (end_ M ++ LF :: [])).
Proof.
  unfold wrapped_rest, wrapped_body. simpl. now rewrite <- app_assoc.
Qed.

Lemma rest_has_no_begin : find_first (wrapped_rest M T) (begin M) = None.
Proof.
  destruct Hmarkers as (Hb & _ & Hbe).
  pose proof (includes_false_nonempty _ _ Hbegin) as Hne.
  rewrite rest_lines.
  rewrite find_first_app_sep by (auto using find_first_nil).
  rewrite find_first_app_sep by (auto; now apply includes_false).
  rewrite find_first_app_sep by (auto; now apply includes_false).
  now rewrite (find_first_nil _ Hne).
Qed.

Lemma rest_end_position :
  find_first (wrapped_rest M T) (end_ M) = Some (length (wrapped_body T)).
Proof.
  destruct Hmarkers as (_ & He & _).
  pose proof (includes_false_nonempty _ _ Hend) as Hne.
  rewrite rest_lines.
  rewrite find_first_app_sep by (auto using find_first_nil).
  rewrite find_first_app_sep by (auto; now apply includes_false).
  rewrite find_first_app. unfold wrapped_body. simpl.
  rewrite length_app. simpl. f_equal. lia.
Qed.

Lemma split_wrapped :
  split (MessageBox.wrapSnippet M T) (begin M) = [[]; wrapped_rest M T].
Proof.
  pose proof (includes_false_nonempty _ _ Hbegin) as Hne.
  rewrite wrapSnippet_shape, (split_unfold _ _ Hne), find_first_app.
  simpl firstn. f_equal. rewrite Nat.add_0_l.
  rewrite skipn_app, skipn_all, Nat.sub_diag. simpl.
  now rewrite (split_unfold _ _ Hne), rest_has_no_begin.
Qed.

Lemma processText_wrapped :
  processText M (MessageBox.wrapSnippet M T) =
  [Fragment (KeyText 0);
   FoldableTextSection (KeyFoldable 1) (wrapped_body T);
   MarkdownSection (KeyTextAfter 1) [LF]].
Proof.
  pose proof (includes_false_nonempty _ _ Hend) as Hne.
  unfold processText. rewrite split_wrapped. simpl forEach.
  rewrite processSection_push.
  rewrite (processSection_terminated (wrapped_rest M T) 1 _
             rest_end_position).
  assert (E0 : processSection M [] [] 0 = [Fragment (KeyText 0)]).
  { unfold processSection. simpl Nat.eqb.
    assert (includes [] (end_ M) = false) as ->
        by (apply includes_false; now apply find_first_nil).
    reflexivity. }
  rewrite E0. unfold wrapped_rest at 1 2 3.
  rewrite firstn_app, firstn_all, Nat.sub_diag. simpl firstn.
  rewrite app_nil_r.
  rewrite app_assoc, skipn_app, skipn_all2, length_app
    by (rewrite length_app; lia).
  replace (length (wrapped_body T) + length (end_ M)
           - (length (wrapped_body T) + length (end_ M)))
    with 0 by lia.
  reflexivity.
Qed.

End RoundTrip.

End ParserFacts.

(** C2, as amended.  For markers that contain no line feed and with the
    begin marker not occurring inside the end marker, and for every text
    [T] containing neither marker: parsing the wrapped text yields an empty
    fragment for the empty piece in front of the begin marker, exactly one
    foldable snippet, and a markdown section holding the final line feed.
    The snippet's content is [T] between the two line feeds the wrapping
    put around it, and the element contents together with the two markers
    spell the wrapped text again: nothing is lost and nothing is doubled. *)
Theorem processText_roundtrip (M : SnippetMarkers) (T : jsstring) :
  well_formed_markers M ->
  includes T (begin M) = false ->
  includes T (end_ M) = false ->
  let parsed := processText M (MessageBox.wrapSnippet M T) in
  parsed = [Fragment (KeyText 0);
            FoldableTextSection (KeyFoldable 1) ([LF] ++ T ++ [LF]);
            MarkdownSection (KeyTextAfter 1) [LF]]
  /\ map segment_of parsed =
     [Prose []; Snippet ([LF] ++ T ++ [LF]); Prose [LF]]
  /\ snippets parsed = [[LF] ++ T ++ [LF]]
  /\ MessageBox.wrapSnippet M T =
     [] ++ begin M ++ ([LF] ++ T ++ [LF]) ++ end_ M ++ [LF].
Proof.
  intros HM Hb He parsed. subst parsed.
  rewrite (processText_wrapped M HM T Hb He).
  repeat split.
  unfold MessageBox.wrapSnippet. simpl. now rewrite <- !app_assoc.
Qed.

Lemma sample_markers_well_formed : well_formed_markers Sample.markers.
Proof.
  repeat split; try reflexivity;
    intros H; vm_compute in H; repeat destruct H as [H|H]; discriminate || easy.
Qed.

Lemma processText_roundtrip_witness :
  well_formed_markers Sample.markers /\
  includes (str "let x = 1;") (begin Sample.markers) = false /\
  includes (str "let x = 1;") (end_ Sample.markers) = false /\
  snippets (processText Sample.markers
              (MessageBox.wrapSnippet Sample.markers (str "let x = 1;")))
  = [[LF] ++ str "let x = 1;" ++ [LF]].
Proof.
  split; [exact sample_markers_well_formed|].
  split; [reflexivity|]. split; [reflexivity|].
  exact (proj1 (proj2 (proj2
    (processText_roundtrip Sample.markers (str "let x = 1;")
       sample_markers_well_formed eq_refl eq_refl)))).
Defined.

(** The round trip as the specification words it fails already for a
    one-letter text: the snippet recovered from the wrapping of [a] is
    [a] with a line feed on either side. *)
Lemma roundtrip_as_specified_fails :
  ~ roundtrip_as_specified Sample.markers (str "a").
Proof.
  intros (content & Hs & Heq).
  vm_compute in Hs. injection Hs as <-.
  destruct Heq as [H|[H|H]]; vm_compute in H; discriminate.
Qed.

Lemma processText_stray_end_marker_witness :
  begin Sample.markers <> [] /\
  includes (before_first_begin Sample.markers
              (str "oops----END-SNIPPET----tail"))
    (end_ Sample.markers) = true /\
  processText Sample.markers (str "oops----END-SNIPPET----tail") =
    [FoldableTextSection (KeyFoldable 0) (str "oops");
     MarkdownSection (KeyTextAfter 0) (str "tail")].
Proof.
  assert (Hne : begin Sample.markers <> []) by discriminate.
  split; [exact Hne|]. split; [reflexivity|].
  destruct (processText_stray_end_marker Sample.markers
              (str "oops----END-SNIPPET----tail") Hne eq_refl)
    as (e & He & _ & Hp & _).
  vm_compute in He. injection He as <-. exact Hp.
Defined.

(** The theorem at work: a snippet that is opened and never closed. *)
Lemma processText_total_lenient_witness :
  nth_error (split (str "intro ----BEGIN-SNIPPET----dangling")
               (begin Sample.markers)) 1 = Some (str "dangling") /\
  includes (str "dangling") (end_ Sample.markers) = false /\
  processText Sample.markers (str "intro ----BEGIN-SNIPPET----dangling") =
    [MarkdownSection (KeyText 0) (str "intro ");
     MarkdownSection (KeyTextStart 1) (str "dangling")] /\
  segment_of (MarkdownSection (KeyTextStart 1) (str "dangling"))
    = Prose (str "dangling").
Proof.
  destruct (processText_total_lenient Sample.markers
              (str "intro ----BEGIN-SNIPPET----dangling"))
    as (_ & _ & Hlenient).
  destruct (Hlenient 0 (str "dangling") eq_refl eq_refl) as (H1 & H2).
  split; [reflexivity|]. split; [reflexivity|].
  split; [exact H1 | exact H2].
Defined.

(* ================================================================== *)
(** * The composer *)
(* ================================================================== *)

Import MessageBox.

Section ComposerFacts.

Variable M : SnippetMarkers.

(** ** Programmatic insertion (claim C7) *)

Lemma spliced_length ta text :
  valid_selection ta ->
  selectionStart ta + length text <= length (spliced ta text).
Proof.
  intros [Hse Hel]. unfold spliced.
  rewrite !length_app, length_firstn, length_skipn. lia.
Qed.

(** Where the buffer, its mirrors and the saved selection stand right
    after an insertion. *)
Lemma insertTextAtCursorPosition_buffer text st ta :
  textAreaRef st = Some ta ->
  let st' := insertTextAtCursorPosition text st in
  let pos := selectionStart ta + length text in
  draftText st' = spliced ta text /\
  textValue st' = spliced ta text /\
  option_map value (textAreaRef st')
    = Some (normalizeNewlines (spliced ta text)) /\
  selectionRef st' = {| start := pos; end' := pos |} /\
  pending st' = pending st ++ [MoveCursor pos] /\
  fileDataRef st' = fileDataRef st /\
  calls st' = calls st.
Proof.
  intros Hta. unfold insertTextAtCursorPosition. rewrite Hta.
  rewrite substring_prefix, substring_from_suffix. fold (spliced ta text).
  unfold setTextAreaValue, onTextArea. simpl. rewrite Hta. simpl.
  repeat split; try reflexivity.
  unfold set_value. cbv zeta.
  destruct (eqb (normalizeNewlines (spliced ta text)) (value ta)) eqn:E.
  - apply eqb_true_iff in E. now rewrite <- E.
  - reflexivity.
Qed.

(** Moving the cursor collapses the selection at the position asked for,
    or at the end of the value when the position lies behind it. *)
Lemma move_cursor_clamped ta pos :
  set_selectionEnd pos (set_selectionStart pos ta) =
  {| value := value ta;
     selectionStart := Nat.min pos (length (value ta));
     selectionEnd := Nat.min pos (length (value ta)) |}.
Proof.
  unfold set_selectionEnd, set_selectionStart, setSelectionRange. simpl.
  f_equal; lia.
Qed.



(** ** Submit (claims C3 and C8) *)

(** A plain Enter while idle does exactly what the form's submit does. *)
Lemma enter_is_submit st shift :
  shift = false -> loading st = false ->
  checkForSpecialKey {| key := str "Enter"; shiftKey := shift |} st
  = (handleSubmit st, true).
Proof.
  intros -> Hl. unfold checkForSpecialKey. simpl key. simpl shiftKey.
  rewrite eqb_refl, Hl. simpl negb. cbv iota.
  unfold handleSubmit. destruct st as [? ? ? ? [ta|] ? ? ? ? ? ?]; reflexivity.
Qed.

Lemma handleSubmit_calls st :
  calls (handleSubmit st) =
  calls st ++ [CallApp (draftText st)
                 (if eqb (allowImageAttachment st) (str "yes")
                  then fileDataRef st else [])].
Proof. now destruct st as [? ? ? ? [ta|] ? ? ? ? ? ?]. Qed.

(** The browser's default action calls nothing and stores nothing. *)
Lemma nativeInput_calls text st :
  calls (nativeInput text st) = calls st /\
  fileDataRef (nativeInput text st) = fileDataRef st.
Proof.
  unfold nativeInput. destruct (textAreaRef st); [|now split].
  now destruct (truthy (normalizeNewlines text)).
Qed.

(** What the browser's default action leaves in the buffer. *)
Lemma nativeInput_buffer text st ta :
  textAreaRef st = Some ta ->
  truthy text = true ->
  draftText (nativeInput text st) = spliced ta (normalizeNewlines text).
Proof.
  intros Hta Ht. unfold nativeInput. rewrite Hta.
  now rewrite normalizeNewlines_truthy, Ht.
Qed.

(** C3, as amended.  For every composer state, [handleSubmit] calls
    [callApp] once, with the buffer as it was and, when images are
    allowed, the attachments as they were; afterwards the buffer is empty,
    the saved selection is [{0, 0}], the editor is collapsed and a focus
    callback is pending, which puts the text area's selection at [{0, 0}]
    too.  The attachments are left as they were: only [clearInputValue] and
    [reset] of the imperative handle empty them. *)
Theorem handleSubmit_effect st :
  let st' := handleSubmit st in
  calls st' =
    calls st ++ [CallApp (draftText st)
                   (if eqb (allowImageAttachment st) (str "yes")
                    then fileDataRef st else [])] /\
  draftText st' = [] /\
  textValue st' = [] /\
  isTextEmpty st' = true /\
  option_map value (textAreaRef st') =
    option_map (fun _ => []) (textAreaRef st) /\
  selectionRef st' = {| start := 0; end' := 0 |} /\
  isExpanded st' = false /\
  fileDataRef st' = fileDataRef st /\
  pending st' = pending st ++ [FocusComposer] /\
  option_map (fun ta => (selectionStart ta, selectionEnd ta))
    (textAreaRef (runTask M FocusComposer st')) =
    option_map (fun _ => (0, 0)) (textAreaRef st) /\
  fileDataRef (clearInputValue st') = [].
Proof.
  intros st'. subst st'. unfold handleSubmit, setTextAreaValue, onTextArea.
  destruct st as [? ? ? ? [ta|] ? ? ? ? ? ?]; simpl.
  - repeat split; try reflexivity.
    unfold set_value. simpl normalizeNewlines. cbv zeta.
    destruct (eqb [] (value ta)) eqn:V; [|reflexivity].
    apply eqb_true_iff in V. now rewrite <- V.
  - repeat split; reflexivity.
Qed.

(** The claim as worded fails: an attachment survives the submit that
    sent it. *)
Lemma handleSubmit_keeps_attachments :
  draftText Sample.hello_with_image = str "hello" /\
  length (fileDataRef Sample.hello_with_image) = 1 /\
  calls (handleSubmit Sample.hello_with_image) =
    [CallApp (str "hello") (fileDataRef Sample.hello_with_image)] /\
  draftText (handleSubmit Sample.hello_with_image) = [] /\
  length (fileDataRef (handleSubmit Sample.hello_with_image)) = 1 /\
  fileDataRef (handleSubmit Sample.hello_with_image) <> [] /\
  fileDataRef (fst (checkForSpecialKey
                      {| key := str "Enter"; shiftKey := false |}
                      Sample.hello_with_image)) <> [].
Proof.
  repeat split; try reflexivity; vm_compute; discriminate.
Qed.

(** C8.  The keyboard policy for Enter.  A plain Enter while no send is
    outstanding submits once, with the current buffer, and suppresses the
    default action.  Enter with Shift held changes nothing and does not
    suppress the default action, so no submission is made and the browser
    puts a line feed into the buffer at the selection.  Enter while a send
    is outstanding makes no submission either. *)
Theorem enter_key_policy st shift :
  let e := {| key := str "Enter"; shiftKey := shift |} in
  (shift = false -> loading st = false ->
     snd (checkForSpecialKey e st) = true /\
     calls (fst (checkForSpecialKey e st)) =
       calls st ++ [CallApp (draftText st)
                      (if eqb (allowImageAttachment st) (str "yes")
                       then fileDataRef st else [])] /\
     pressEnter shift st = handleSubmit st) /\
  (shift = true ->
     checkForSpecialKey e st = (st, false) /\
     calls (pressEnter shift st) = calls st /\
     forall ta, textAreaRef st = Some ta ->
       draftText (pressEnter shift st) =
         firstn (selectionStart ta) (value ta) ++ [LF]
         ++ skipn (selectionEnd ta) (value ta)) /\
  (loading st = true ->
     checkForSpecialKey e st = (st, false) /\
     calls (pressEnter shift st) = calls st).
Proof.
  intros e. subst e. unfold pressEnter. split; [|split].
  - intros Hs Hl. rewrite (enter_is_submit st shift Hs Hl). simpl.
    repeat split. apply handleSubmit_calls.
  - intros ->.
    change (checkForSpecialKey {| key := str "Enter"; shiftKey := true |} st)
      with (st, false).
    split; [reflexivity|]. split.
    + apply nativeInput_calls.
    + intros ta Hta. now rewrite (nativeInput_buffer [LF] st ta Hta).
  - intros Hl.
    assert (Hk : checkForSpecialKey
                   {| key := str "Enter"; shiftKey := shift |} st
                 = (st, false)).
    { unfold checkForSpecialKey. simpl. rewrite Hl. now destruct shift. }
    rewrite Hk. split; [reflexivity|]. apply nativeInput_calls.
Qed.

(** ** Cancel (claim C4) *)

(** C4, as amended.  For every composer state, [handleCancel] signals
    [ChatService.cancelStream], clears the loading flag, and leaves
    everything else as it was: the composition mode stays what it is, and
    so do the buffer, the selection and the attachments. *)
Theorem handleCancel_effect st :
  let st' := handleCancel st in
  calls st' = calls st ++ [CancelStream; SetLoading false] /\
  loading st' = false /\
  isExpanded st' = isExpanded st /\
  same_buffer st' st /\
  fileDataRef st' = fileDataRef st /\
  pending st' = pending st.
Proof.
  intros st'. subst st'.
  unfold handleCancel, setLoading, cancelStream, call, same_buffer. simpl.
  rewrite <- app_assoc. now repeat split.
Qed.

(** The claim as worded fails: cancelling in the expanded editor leaves
    the editor expanded. *)
Lemma handleCancel_keeps_expanded :
  loading Sample.expanded_while_loading = true /\
  isExpanded Sample.expanded_while_loading = true /\
  isExpanded (handleCancel Sample.expanded_while_loading) = true /\
  loading (handleCancel Sample.expanded_while_loading) = false.
Proof. repeat split. Qed.

(** ** Paste (claims C5, C6 and C1) *)

Section PasteFacts.

Variable MAX_ROWS : nat.
Variable MAX_IMAGES : nat.
Variable preprocessImage : File -> jsstring * File.


Lemma with_pending_id st : with_pending (pending st) st = st.
Proof. now destruct st. Qed.

(** The loop over the clipboard items queues one append per readable
    image it accepts, prevents the default action as soon as it accepts
    one, and touches nothing else. *)
Lemma pasteItems_spec l : forall st prevented,
  pasteItems preprocessImage l (st, prevented) =
  (with_pending
     (pending st ++ map AppendFile (ingested preprocessImage st l)) st,
   prevented || existsb (image_accepted st) l).
Proof.
  induction l as [|item l IH]; intros st prevented.
  - simpl. now rewrite app_nil_r, with_pending_id, orb_false_r.
  - cbn [pasteItems existsb ingested flat_map].
    fold (ingested preprocessImage st l).
    destruct (image_accepted st item) eqn:A.
    + rewrite orb_true_r. simpl orb.
      destruct (getAsFile item) as [file|];
        [destruct (readAsDataURL file)|]; rewrite IH; simpl;
        rewrite <- ?app_assoc; reflexivity.
    + rewrite IH. reflexivity.
Qed.

Lemma pasteItems_same_buffer l st prevented :
  same_buffer (fst (pasteItems preprocessImage l (st, prevented))) st /\
  fileDataRef (fst (pasteItems preprocessImage l (st, prevented)))
    = fileDataRef st /\
  calls (fst (pasteItems preprocessImage l (st, prevented))) = calls st.
Proof. rewrite pasteItems_spec. unfold same_buffer. now repeat split. Qed.

Lemma ingested_none st l :
  existsb (image_accepted st) l = false -> ingested preprocessImage st l = [].
Proof.
  induction l as [|item l IH]; [reflexivity|]. simpl.
  intros H. apply orb_false_iff in H as [-> H]. now apply IH.
Qed.

(** Without an accepted image the loop is the identity. *)
Lemma pasteItems_no_image l st :
  existsb (image_accepted st) l = false ->
  pasteItems preprocessImage l (st, false) = (st, false).
Proof.
  intros H. rewrite pasteItems_spec, H, (ingested_none _ _ H). simpl.
  now rewrite app_nil_r, with_pending_id.
Qed.

(** C5: where the paste handler follows the rule for oversized text, and
    where it departs from it.  For every paste whose text holds neither
    marker.  If the text has at least [MAX_ROWS] line feeds or more than
    [80 * MAX_ROWS] code units, the native paste is suppressed and the text
    is inserted at the cursor between the markers, as
    [begin \n text \n end \n], whatever else the event carries.
    Otherwise the handler inserts nothing, and the native paste proceeds
    with the text as it is when the loop over the clipboard items accepted
    no image.  When the loop did accept an image of the same event, its
    [preventDefault] holds for the whole event: the native paste the else
    branch means to allow does not happen, and the text is lost, the
    buffer staying as it was. *)
Theorem handlePaste_classification event st :
  includes (text_plain event) (begin M) = false ->
  includes (text_plain event) (end_ M) = false ->
  let pastedText := text_plain event in
  let after_items :=
    fst (pasteItems preprocessImage (items event) (st, false)) in
  let accepted := existsb (image_accepted st) (items event) in
  (oversized MAX_ROWS pastedText = true ->
     handlePaste M MAX_ROWS preprocessImage event st =
       (insertTextAtCursorPosition (wrapSnippet M pastedText) after_items,
        true) /\
     forall ta, textAreaRef st = Some ta ->
       draftText (paste M MAX_ROWS preprocessImage event st) =
         spliced ta (begin M ++ [LF] ++ pastedText ++ [LF] ++ end_ M ++ [LF]))
  /\
  (oversized MAX_ROWS pastedText = false ->
     handlePaste M MAX_ROWS preprocessImage event st
       = (after_items, accepted) /\
     same_buffer after_items st /\
     (accepted = false ->
        paste M MAX_ROWS preprocessImage event st
          = nativeInput pastedText st) /\
     (accepted = true ->
        same_buffer (paste M MAX_ROWS preprocessImage event st) st)).
Proof.
  intros Hb He pastedText after_items accepted. subst pastedText.
  assert (Hloop : pasteItems preprocessImage (items event) (st, false)
                  = (after_items, accepted)).
  { unfold after_items, accepted. now rewrite pasteItems_spec. }
  assert (Hbuf : same_buffer after_items st)
    by apply pasteItems_same_buffer.
  split; intros Hov.
  - assert (Hp : handlePaste M MAX_ROWS preprocessImage event st =
                 (insertTextAtCursorPosition (wrapSnippet M (text_plain event))
                    after_items, true)).
    { unfold handlePaste. rewrite Hloop.
      now rewrite Hb, He, Hov. }
    split; [exact Hp|]. intros ta Hta.
    unfold paste. rewrite Hp.
    destruct Hbuf as (_ & _ & _ & Hta' & _). rewrite Hta in Hta'.
    now destruct (insertTextAtCursorPosition_buffer
                    (wrapSnippet M (text_plain event)) after_items ta Hta')
      as (-> & _).
  - assert (Hp : handlePaste M MAX_ROWS preprocessImage event st
                 = (after_items, accepted)).
    { unfold handlePaste. rewrite Hloop.
      now rewrite Hb, He, Hov. }
    split; [exact Hp|]. split; [exact Hbuf|].
    unfold paste. rewrite Hp. split; intros Hacc; rewrite Hacc.
    + unfold after_items. now rewrite (pasteItems_no_image _ _ Hacc).
    + exact Hbuf.
Qed.

(** C6: where the paste handler follows the rule for text that carries a
    marker, and where it departs from it.  For every paste whose text
    already holds the begin marker or the end marker, the handler returns
    right after the loop over the clipboard items: it inserts nothing, so
    the buffer gains no marker from the handler, and the native paste
    proceeds with the text unmodified when the loop accepted no image.
    When the loop did accept an image of the same event, its
    [preventDefault] holds for the whole event: the native paste the early
    return means to allow does not happen, and the text is lost, the
    buffer staying as it was. *)
Theorem handlePaste_markers_untouched event st :
  includes (text_plain event) (begin M) = true \/
  includes (text_plain event) (end_ M) = true ->
  let accepted := existsb (image_accepted st) (items event) in
  handlePaste M MAX_ROWS preprocessImage event st
    = pasteItems preprocessImage (items event) (st, false) /\
  snd (handlePaste M MAX_ROWS preprocessImage event st) = accepted /\
  same_buffer (fst (handlePaste M MAX_ROWS preprocessImage event st)) st /\
  (accepted = false ->
     paste M MAX_ROWS preprocessImage event st
       = nativeInput (text_plain event) st) /\
  (accepted = true ->
     same_buffer (paste M MAX_ROWS preprocessImage event st) st).
Proof.
  intros Hmark accepted.
  assert (Hp : handlePaste M MAX_ROWS preprocessImage event st
               = pasteItems preprocessImage (items event) (st, false)).
  { unfold handlePaste.
    destruct (pasteItems preprocessImage (items event) (st, false))
      as [st1 prevented].
    destruct Hmark as [-> | ->]; [reflexivity|].
    now rewrite orb_true_r. }
  split; [exact Hp|]. unfold paste. rewrite Hp.
  rewrite pasteItems_spec. fold accepted. simpl.
  split; [reflexivity|]. split; [now unfold same_buffer|].
  split; intros Hacc; rewrite Hacc.
  - rewrite (ingested_none st (items event) Hacc).
    simpl. now rewrite app_nil_r, with_pending_id.
  - now unfold same_buffer.
Qed.

(** *** The attachment store *)

(** Pending appends land in the store one per turn, oldest first. *)
Lemma run_appends fs : forall st rest,
  pending st = map AppendFile fs ++ rest ->
  fileDataRef (run M (length fs) st) = fileDataRef st ++ fs /\
  pending (run M (length fs) st) = rest.
Proof.
  induction fs as [|f fs IH]; intros st rest Hp.
  - simpl. now rewrite app_nil_r.
  - simpl run. unfold step. rewrite Hp. simpl.
    destruct (IH (setFileDataRef (fileDataRef st ++ [f])
                    (with_pending (map AppendFile fs ++ rest) st)) rest
                 eq_refl) as [Hf Hr].
    split; [|exact Hr]. rewrite Hf. simpl. now rewrite <- app_assoc.
Qed.

Lemma insertTextAtCursorPosition_store text st :
  fileDataRef (insertTextAtCursorPosition text st) = fileDataRef st /\
  exists extra,
    pending (insertTextAtCursorPosition text st) = pending st ++ extra.
Proof.
  unfold insertTextAtCursorPosition.
  destruct st as [? ? ? ? [ta|] ? ? ? ? ? ?]; simpl.
  - split; [reflexivity|]. now eexists.
  - split; [reflexivity|]. exists []. now rewrite app_nil_r.
Qed.

(** Whatever the text of the event, [handlePaste] leaves the store as it
    is and queues the appends of its loop first. *)
Lemma handlePaste_store event st :
  fileDataRef (fst (handlePaste M MAX_ROWS preprocessImage event st))
    = fileDataRef st /\
  exists extra,
    pending (fst (handlePaste M MAX_ROWS preprocessImage event st)) =
    (pending st
     ++ map AppendFile (ingested preprocessImage st (items event)))
    ++ extra.
Proof.
  unfold handlePaste. rewrite pasteItems_spec.
  destruct (includes _ (begin M) || includes _ (end_ M));
    [|destruct (oversized MAX_ROWS (text_plain event))]; simpl.
  - split; [reflexivity|]. exists []. now rewrite app_nil_r.
  - apply (insertTextAtCursorPosition_store _
             (with_pending
                (pending st
                 ++ map AppendFile (ingested preprocessImage st (items event)))
                st)).
  - split; [reflexivity|]. exists []. now rewrite app_nil_r.
Qed.

Lemma ingested_all st l :
  Forall (readable_image st) l ->
  length (ingested preprocessImage st l) = length l.
Proof.
  induction 1 as [|item l (Hacc & file & Hfile & Hread) _ IH];
    [reflexivity|].
  simpl. rewrite Hacc, Hfile.
  destruct (readAsDataURL file); [|congruence].
  simpl. now rewrite IH.
Qed.

(** The paste path knows no cap: every readable image of the event ends
    up in the store. *)
Lemma handlePaste_appends_all event st :
  pending st = [] ->
  fileDataRef
    (run M (length (ingested preprocessImage st (items event)))
       (fst (handlePaste M MAX_ROWS preprocessImage event st)))
  = fileDataRef st ++ ingested preprocessImage st (items event).
Proof.
  intros Hp.
  destruct (handlePaste_store event st) as [Hf [extra He]].
  rewrite Hp in He. simpl in He.
  destruct (run_appends _ _ _ He) as [Hr _].
  now rewrite Hr, Hf.
Qed.

(** The picker path compares the cap with the store as the render that
    opened the dialog saw it, once for every picked file: the files of one
    pick are appended all or dropped all. *)
Lemma handleAttachment_images rendered files :
  Forall (fun f => startsWith (file_type f) (str "image/") = true) files ->
  forall st,
  handleAttachment MAX_IMAGES preprocessImage rendered files st =
  if MAX_IMAGES <=? length (fileDataRef rendered) then st
  else with_pending
         (pending st
          ++ map AppendFile (map (pickedImage preprocessImage) files)) st.
Proof.
  intros Hall st. unfold handleAttachment. generalize 0. revert st.
  induction Hall as [|f files Himg _ IH]; intros st index.
  - simpl. rewrite app_nil_r, with_pending_id. now destruct (_ <=? _).
  - simpl UserContentBlock.forEach. rewrite IH.
    unfold attachFile. rewrite Himg.
    destruct (MAX_IMAGES <=? length (fileDataRef rendered));
      [reflexivity|].
    simpl. now rewrite <- app_assoc.
Qed.

(** C1: how the code departs from the cap.  Starting from an empty store
    with nothing pending, a paste event that carries [MAX_IMAGES + k]
    readable images ends with [MAX_IMAGES + k] stored attachments, and so
    does one pick of [MAX_IMAGES + k] image files: the paste path never
    looks at the cap, and the picker path checks it against the store as
    it was when the dialog was opened. *)
Theorem image_cap_not_enforced k event files st :
  1 <= k ->
  0 < MAX_IMAGES ->
  pending st = [] ->
  fileDataRef st = [] ->
  Forall (readable_image st) (items event) ->
  length (items event) = MAX_IMAGES + k ->
  Forall (fun f => startsWith (file_type f) (str "image/") = true) files ->
  length files = MAX_IMAGES + k ->
  length (fileDataRef
            (run M (MAX_IMAGES + k)
               (fst (handlePaste M MAX_ROWS preprocessImage event st))))
    = MAX_IMAGES + k /\
  length (fileDataRef
            (run M (MAX_IMAGES + k)
               (handleAttachment MAX_IMAGES preprocessImage st files st)))
    = MAX_IMAGES + k /\
  MAX_IMAGES < MAX_IMAGES + k.
Proof.
  intros Hk Hmax Hp Hf Hitems Hni Hfiles Hnf. split; [|split; [|lia]].
  - pose proof (ingested_all st (items event) Hitems) as Hlen.
    rewrite Hni in Hlen. rewrite <- Hlen.
    rewrite (handlePaste_appends_all event st Hp), Hf. reflexivity.
  - rewrite (handleAttachment_images st files Hfiles st), Hf.
    simpl length. replace (MAX_IMAGES <=? 0) with false
      by (symmetry; apply Nat.leb_gt; lia).
    rewrite Hp. simpl app.
    destruct (run_appends (map (pickedImage preprocessImage) files)
                (with_pending
                   (map AppendFile (map (pickedImage preprocessImage) files))
                   st) [])
      as [Hr _].
    { simpl. now rewrite app_nil_r. }
    rewrite length_map, Hnf in Hr. rewrite Hr.
    rewrite length_app, length_map. simpl. rewrite Hf. simpl. exact Hnf.
Qed.

End PasteFacts.

End ComposerFacts.

(** ** The theorems at work on the sample configuration *)


Lemma enter_key_policy_witness :
  loading Sample.typed_hello = false /\
  calls (fst (checkForSpecialKey {| key := str "Enter"; shiftKey := false |}
                Sample.typed_hello))
    = [CallApp (str "hello") []] /\
  draftText (pressEnter false Sample.typed_hello) = [] /\
  isExpanded (pressEnter false Sample.typed_hello) = false /\
  calls (pressEnter true Sample.typed_hello) = [] /\
  draftText (pressEnter true Sample.typed_hello) = str "hello" ++ [LF].
Proof.
  destruct (enter_key_policy Sample.typed_hello false) as (Hplain & _ & _).
  destruct (Hplain eq_refl eq_refl) as (_ & Hcalls & Hsame).
  destruct (enter_key_policy Sample.typed_hello true) as (_ & Hshift & _).
  destruct (Hshift eq_refl) as (_ & Hnone & Hline).
  split; [reflexivity|]. split; [exact Hcalls|].
  split; [now rewrite Hsame|]. split; [now rewrite Hsame|].
  split; [exact Hnone|]. exact (Hline _ eq_refl).
Defined.

Lemma handlePaste_classification_witness :
  includes (text_plain Sample.image_and_text) (begin Sample.markers) = false /\
  includes (text_plain Sample.image_and_text) (end_ Sample.markers) = false /\
  oversized Sample.max_rows (text_plain Sample.image_and_text) = false /\
  existsb (image_accepted Sample.fresh) (items Sample.image_and_text) = true /\
  snd (handlePaste Sample.markers Sample.max_rows Sample.preprocess
         Sample.image_and_text Sample.fresh) = true /\
  same_buffer (paste Sample.markers Sample.max_rows Sample.preprocess
                 Sample.image_and_text Sample.fresh) Sample.fresh /\
  oversized Sample.max_rows Sample.long_text = true /\
  draftText (paste Sample.markers Sample.max_rows Sample.preprocess
               Sample.long_paste Sample.fresh)
    = begin Sample.markers ++ [LF] ++ Sample.long_text ++ [LF]
      ++ end_ Sample.markers ++ [LF].
Proof.
  destruct (handlePaste_classification Sample.markers Sample.max_rows
              Sample.preprocess Sample.image_and_text Sample.fresh
              eq_refl eq_refl)
    as (_ & Hsmall).
  destruct (Hsmall eq_refl) as (Hp & _ & _ & Hlost).
  destruct (handlePaste_classification Sample.markers Sample.max_rows
              Sample.preprocess Sample.long_paste Sample.fresh eq_refl eq_refl)
    as (Hbig & _).
  destruct (Hbig eq_refl) as (_ & Hbuf).
  split; [reflexivity|]. split; [reflexivity|]. split; [reflexivity|].
  split; [reflexivity|]. split; [now rewrite Hp|].
  split; [exact (Hlost eq_refl)|]. split; [reflexivity|].
  exact (Hbuf _ eq_refl).
Defined.

(** The handler at a short text that arrives together with an image: it
    has prevented the default action for the image, and the text is not
    pasted, the buffer stays empty. *)
Lemma short_text_with_image_not_pasted :
  includes (text_plain Sample.image_and_text) (begin Sample.markers) = false /\
  includes (text_plain Sample.image_and_text) (end_ Sample.markers) = false /\
  oversized Sample.max_rows (text_plain Sample.image_and_text) = false /\
  snd (handlePaste Sample.markers Sample.max_rows Sample.preprocess
         Sample.image_and_text Sample.fresh)
    = true /\
  draftText (paste Sample.markers Sample.max_rows Sample.preprocess
               Sample.image_and_text Sample.fresh)
    = [] /\
  draftText (paste Sample.markers Sample.max_rows Sample.preprocess
               Sample.image_and_text Sample.fresh)
    <> str "hi".
Proof. repeat split; try reflexivity. discriminate. Qed.

Lemma handlePaste_markers_untouched_witness :
  includes (text_plain Sample.image_and_marker) (begin Sample.markers) = true /\
  existsb (image_accepted Sample.fresh) (items Sample.image_and_marker)
    = true /\
  snd (handlePaste Sample.markers Sample.max_rows Sample.preprocess
         Sample.image_and_marker Sample.fresh) = true /\
  same_buffer (paste Sample.markers Sample.max_rows Sample.preprocess
                 Sample.image_and_marker Sample.fresh) Sample.fresh /\
  includes Sample.marked_text (begin Sample.markers) = true /\
  handlePaste Sample.markers Sample.max_rows Sample.preprocess
    Sample.marked_paste Sample.typed_hello = (Sample.typed_hello, false) /\
  draftText (paste Sample.markers Sample.max_rows Sample.preprocess
               Sample.marked_paste Sample.typed_hello)
    = str "hello" ++ Sample.marked_text.
Proof.
  destruct (handlePaste_markers_untouched Sample.markers Sample.max_rows
              Sample.preprocess Sample.image_and_marker Sample.fresh
              (or_introl eq_refl))
    as (_ & Hprev & _ & _ & Hlost).
  destruct (handlePaste_markers_untouched Sample.markers Sample.max_rows
              Sample.preprocess Sample.marked_paste Sample.typed_hello
              (or_introl eq_refl))
    as (Hp & _ & _ & Hnative & _).
  split; [reflexivity|]. split; [reflexivity|]. split; [exact Hprev|].
  split; [exact (Hlost eq_refl)|].
  split; [reflexivity|]. split; [exact Hp|].
  now rewrite (Hnative eq_refl).
Defined.

(** The handler at a text that is a marker and arrives together with an
    image: the text is not pasted at all. *)
Lemma marker_text_with_image_not_pasted :
  includes (text_plain Sample.image_and_marker) (begin Sample.markers) = true /\
  snd (handlePaste Sample.markers Sample.max_rows Sample.preprocess
         Sample.image_and_marker Sample.fresh)
    = true /\
  draftText (paste Sample.markers Sample.max_rows Sample.preprocess
               Sample.image_and_marker Sample.fresh)
    = [] /\
  draftText (paste Sample.markers Sample.max_rows Sample.preprocess
               Sample.image_and_marker Sample.fresh)
    <> text_plain Sample.image_and_marker.
Proof. repeat split; try reflexivity. discriminate. Qed.

Lemma sample_items_readable :
  Forall (readable_image Sample.fresh) (items Sample.three_images).
Proof.
  repeat constructor; exists Sample.png; split; try reflexivity; discriminate.
Qed.

Lemma image_cap_not_enforced_witness :
  Sample.max_images = 2 /\
  length (items Sample.three_images) = 3 /\
  length Sample.three_files = 3 /\
  length (fileDataRef
            (run Sample.markers 3
               (fst (handlePaste Sample.markers Sample.max_rows
                       Sample.preprocess Sample.three_images
                       Sample.fresh)))) = 3 /\
  length (fileDataRef
            (run Sample.markers 3
               (handleAttachment Sample.max_images Sample.preprocess
                  Sample.fresh Sample.three_files Sample.fresh))) = 3.
Proof.
  assert (Hk : 1 <= 1) by lia.
  assert (Hmax : 0 < Sample.max_images) by (unfold Sample.max_images; lia).
  assert (Hfiles : Forall
                     (fun f => startsWith (file_type f) (str "image/") = true)
                     Sample.three_files) by (repeat constructor).
  destruct (image_cap_not_enforced Sample.markers Sample.max_rows
              Sample.max_images Sample.preprocess 1 Sample.three_images
              Sample.three_files Sample.fresh Hk Hmax eq_refl eq_refl
              sample_items_readable eq_refl Hfiles eq_refl)
    as (Hpaste & Hpick & _).
  repeat split; assumption.
Defined.

(* ================================================================== *)
(** * Further properties of the string operations and of the parser *)
(* ================================================================== *)

Import JSMore UserContentBlockMore.

Section SplitFacts.

Implicit Types s pat sep : jsstring.

Lemma startsWith_app_l s t pat :
  startsWith s pat = true -> startsWith (s ++ t) pat = true.
Proof.
  revert s. induction pat as [|p pat IH]; intros s H; [reflexivity|].
  destruct s as [|c s]; [discriminate|]. simpl in *.
  apply andb_true_iff in H as [-> H]. now apply IH.
Qed.

(** In front of the first occurrence there is none. *)
Lemma find_first_prefix_none s pat q :
  pat <> [] -> find_first s pat = Some q ->
  find_first (firstn q s) pat = None.
Proof.
  intros Hne. revert q. induction s as [|c s IH]; intros q H.
  - rewrite firstn_nil. now apply find_first_nil.
  - rewrite find_first_cons in H.
    destruct (startsWith (c :: s) pat) eqn:E.
    + injection H as <-. now apply find_first_nil.
    + destruct (find_first s pat) as [q'|] eqn:F; [|discriminate].
      injection H as <-. simpl firstn. rewrite find_first_cons.
      destruct (startsWith (c :: firstn q' s) pat) eqn:E'.
      * apply (startsWith_app_l _ (skipn q' s)) in E'.
        simpl app in E'. rewrite firstn_skipn in E'. congruence.
      * now rewrite (IH q' eq_refl).
Qed.

(** A string without the pattern has no prefix with it. *)
Lemma find_first_firstn_none s pat n :
  find_first s pat = None -> find_first (firstn n s) pat = None.
Proof.
  intros H.
  assert (Hne : pat <> []) by (apply (includes_false_nonempty s);
                               now apply includes_false).
  revert n H. induction s as [|c s IH]; intros n H.
  - rewrite firstn_nil. now apply find_first_nil.
  - destruct n as [|n]; [now apply find_first_nil|].
    rewrite find_first_cons in H.
    destruct (startsWith (c :: s) pat) eqn:E; [discriminate|].
    destruct (find_first s pat) eqn:F; [discriminate|].
    simpl firstn. rewrite find_first_cons.
    destruct (startsWith (c :: firstn n s) pat) eqn:E'.
    + apply (startsWith_app_l _ (skipn n s)) in E'.
      simpl app in E'. rewrite firstn_skipn in E'. congruence.
    + now rewrite IH.
Qed.

Lemma split_nonempty s sep : sep <> [] -> split s sep <> [].
Proof.
  intros Hne. rewrite (split_unfold _ _ Hne).
  destruct (find_first s sep); discriminate.
Qed.

Lemma join_cons sep p ps :
  ps <> [] -> join sep (p :: ps) = p ++ sep ++ join sep ps.
Proof. destruct ps; [congruence|reflexivity]. Qed.

Lemma split_join_bounded sep :
  sep <> [] -> forall n s, length s <= n -> join sep (split s sep) = s.
Proof.
  intros Hne. induction n as [|n IH]; intros s Hn;
    rewrite (split_unfold _ _ Hne);
    destruct (find_first s sep) as [q|] eqn:F; try reflexivity.
  - pose proof (find_first_bound _ _ _ F).
    destruct sep; [congruence|simpl in *; lia].
  - pose proof (find_first_bound _ _ _ F) as Hq.
    assert (0 < length sep) by (destruct sep; [congruence|simpl; lia]).
    rewrite join_cons by now apply split_nonempty.
    rewrite IH by (rewrite length_skipn; lia).
    symmetry. now apply find_first_occurrence.
Qed.

(** [split] loses nothing: for a non-empty separator, joining the pieces
    of a string with the separator gives the string back. *)
Lemma split_join s sep : sep <> [] -> join sep (split s sep) = s.
Proof.
  intros Hne. now apply (split_join_bounded sep Hne (length s)).
Qed.

Lemma split_pieces_bounded sep :
  sep <> [] -> forall n s, length s <= n ->
  Forall (fun p => includes p sep = false) (split s sep).
Proof.
  intros Hne. induction n as [|n IH]; intros s Hn;
    rewrite (split_unfold _ _ Hne);
    destruct (find_first s sep) as [q|] eqn:F.
  - pose proof (find_first_bound _ _ _ F).
    destruct sep; [congruence|simpl in *; lia].
  - constructor; [now apply includes_false|constructor].
  - pose proof (find_first_bound _ _ _ F) as Hq.
    assert (0 < length sep) by (destruct sep; [congruence|simpl; lia]).
    constructor.
    + apply includes_false. now apply find_first_prefix_none.
    + apply IH. rewrite length_skipn. lia.
  - constructor; [now apply includes_false|constructor].
Qed.

(** For a non-empty separator, no piece [split] returns contains the
    separator. *)
Lemma split_pieces_free s sep :
  sep <> [] -> Forall (fun p => includes p sep = false) (split s sep).
Proof.
  intros Hne. now apply (split_pieces_bounded sep Hne (length s)).
Qed.

End SplitFacts.

Section ParserMore.

Variable M : SnippetMarkers.

Implicit Types (piece inputText : jsstring).

(** What one piece contributes, by whether it holds an end marker. *)
Lemma processSection_cases piece index :
  processSection M [] piece index =
  match find_first piece (end_ M) with
  | Some e =>
      FoldableTextSection (KeyFoldable index) (firstn e piece)
      :: (if truthy (skipn (e + length (end_ M)) piece)
          then [MarkdownSection (KeyTextAfter index)
                  (skipn (e + length (end_ M)) piece)]
          else [])
  | None =>
      [renderMarkdownSection piece
         (match index with 0 => KeyText 0 | S _ => KeyTextStart index end)]
  end.
Proof.
  destruct (find_first piece (end_ M)) as [e|] eqn:F.
  - now apply processSection_terminated.
  - destruct index as [|i].
    + unfold processSection. simpl Nat.eqb.
      now rewrite (proj2 (includes_false _ _) F).
    + apply processSection_unterminated. now apply includes_false.
Qed.

Lemma forEach_cons piece pieces index :
  forEach (processSection M) (piece :: pieces) index [] =
  processSection M [] piece index
  ++ forEach (processSection M) pieces (S index) [].
Proof. simpl. now rewrite forEach_push. Qed.

(** ** Plain text *)

(** X1.  A text that contains neither marker is rendered as it is: one
    markdown section with key [text-0] holding the whole text, an empty
    fragment when the text is empty, and no foldable section. *)
Theorem processText_plain inputText :
  includes inputText (begin M) = false ->
  includes inputText (end_ M) = false ->
  processText M inputText = [renderMarkdownSection inputText (KeyText 0)] /\
  map segment_of (processText M inputText) = [Prose inputText] /\
  snippets (processText M inputText) = [].
Proof.
  intros Hb He.
  assert (E : processText M inputText =
              [renderMarkdownSection inputText (KeyText 0)]).
  { unfold processText.
    rewrite (split_unfold _ _ (includes_false_nonempty _ _ Hb)).
    rewrite (proj1 (includes_false _ _) Hb).
    rewrite forEach_cons, processSection_cases.
    now rewrite (proj1 (includes_false _ _) He). }
  rewrite E. split; [reflexivity|]. simpl.
  rewrite segment_of_renderMarkdownSection. split; [reflexivity|].
  now destruct inputText.
Qed.

(** ** Nothing is lost *)

Lemma source_of_processSection piece index :
  concat (map (source_of M) (processSection M [] piece index)) =
  match index with 0 => piece | S _ => begin M ++ piece end.
Proof.
  rewrite processSection_cases.
  destruct (find_first piece (end_ M)) as [e|] eqn:F.
  - pose proof (find_first_occurrence _ _ _ F) as Hp.
    assert (Hr : forall r,
               concat (map (source_of M)
                 (if truthy r then [MarkdownSection (KeyTextAfter index) r]
                  else [])) = r).
    { intros [|c r]; simpl; [reflexivity|]. now rewrite app_nil_r. }
    simpl map. simpl concat. rewrite Hr.
    destruct index; unfold source_of; simpl;
      rewrite <- ?app_assoc; now rewrite <- Hp.
  - unfold renderMarkdownSection.
    destruct index, piece; unfold source_of; simpl;
      now rewrite ?app_nil_r.
Qed.

Lemma source_of_later pieces : forall index,
  concat (map (source_of M)
            (forEach (processSection M) pieces (S index) [])) =
  concat (map (fun p => begin M ++ p) pieces).
Proof.
  induction pieces as [|p pieces IH]; intros index; [reflexivity|].
  rewrite forEach_cons, map_app, concat_app, source_of_processSection, IH.
  reflexivity.
Qed.

Lemma join_concat sep p ps :
  join sep (p :: ps) = p ++ concat (map (fun x => sep ++ x) ps).
Proof.
  revert p. induction ps as [|x ps IH]; intros p.
  - simpl. now rewrite app_nil_r.
  - rewrite join_cons by discriminate. rewrite IH. simpl.
    now rewrite <- app_assoc.
Qed.

(** X2.  The parser loses no character.  For a non-empty begin marker:
    put the markers back that the keys stand for (a begin marker in front
    of what came from a piece behind one, an end marker behind every
    foldable section) and the elements, in order, spell the input. *)
Theorem processText_lossless inputText :
  begin M <> [] ->
  concat (map (source_of M) (processText M inputText)) = inputText.
Proof.
  intros Hne. unfold processText.
  pose proof (split_join inputText (begin M) Hne) as Hj.
  destruct (split inputText (begin M)) as [|p ps] eqn:E.
  - now apply split_nonempty in E.
  - rewrite forEach_cons, map_app, concat_app.
    rewrite source_of_processSection, source_of_later.
    now rewrite <- join_concat.
Qed.

(** ** Keys *)

Lemma keys_processSection piece index :
  NoDup (map key_of (processSection M [] piece index)) /\
  forall k, In k (map key_of (processSection M [] piece index)) ->
            key_index k = index.
Proof.
  rewrite processSection_cases.
  destruct (find_first piece (end_ M)) as [e|].
  - destruct (truthy _); simpl; split.
    + repeat constructor; simpl; intuition discriminate.
    + intros k [<-|[<-|[]]]; reflexivity.
    + repeat constructor; simpl; intuition.
    + intros k [<-|[]]; reflexivity.
  - unfold renderMarkdownSection. destruct (negb (truthy piece)); simpl; split;
      try (repeat constructor; simpl; now intuition);
      intros k [<-|[]]; now destruct index.
Qed.

Lemma keys_forEach pieces : forall index,
  NoDup (map key_of (forEach (processSection M) pieces index [])) /\
  forall k, In k (map key_of (forEach (processSection M) pieces index [])) ->
            index <= key_index k.
Proof.
  induction pieces as [|p pieces IH]; intros index.
  - split; [constructor|intros k []].
  - rewrite forEach_cons, map_app.
    destruct (keys_processSection p index) as [Hn Hi].
    destruct (IH (S index)) as [Hn' Hi'].
    split.
    + apply NoDup_app; [assumption|assumption|].
      intros k Hk Hk'. apply Hi in Hk. apply Hi' in Hk'. lia.
    + intros k Hk. apply in_app_or in Hk as [Hk|Hk].
      * apply Hi in Hk. lia.
      * apply Hi' in Hk. lia.
Qed.

(** X3.  Whatever the input and the markers, the React keys of the
    elements [processText] returns are pairwise distinct. *)
Theorem processText_keys_distinct inputText :
  NoDup (map key_of (processText M inputText)).
Proof. apply keys_forEach. Qed.

(** ** Snippets *)

Lemma snippets_app es es' : snippets (es ++ es') = snippets es ++ snippets es'.
Proof. apply flat_map_app. Qed.

Lemma snippets_processSection piece index :
  snippets (processSection M [] piece index) =
  match find_first piece (end_ M) with
  | Some e => [firstn e piece]
  | None => []
  end.
Proof.
  rewrite processSection_cases.
  destruct (find_first piece (end_ M)) as [e|].
  - now destruct (truthy _).
  - unfold renderMarkdownSection. now destruct (negb (truthy piece)).
Qed.

Lemma snippets_forEach (P : jsstring -> Prop) pieces :
  (forall p e, In p pieces -> find_first p (end_ M) = Some e ->
               P (firstn e p)) ->
  forall index,
  Forall P (snippets (forEach (processSection M) pieces index [])).
Proof.
  induction pieces as [|p pieces IH]; intros HP index; [constructor|].
  rewrite forEach_cons, snippets_app, snippets_processSection.
  apply Forall_app. split.
  - destruct (find_first p (end_ M)) as [e|] eqn:F; [|constructor].
    constructor; [|constructor]. apply HP; [now left|assumption].
  - apply IH. intros q e Hq. apply HP. now right.
Qed.

(** X4.  Snippets never nest.  For non-empty markers, no snippet that
    [processText] returns contains the begin marker or the end marker,
    whatever the input. *)
Theorem processText_snippets_marker_free inputText :
  begin M <> [] ->
  end_ M <> [] ->
  Forall (fun c => includes c (begin M) = false /\
                   includes c (end_ M) = false)
    (snippets (processText M inputText)).
Proof.
  intros Hb He. unfold processText. apply snippets_forEach.
  intros p e Hin F. split; apply includes_false.
  - apply find_first_firstn_none. apply includes_false.
    pose proof (split_pieces_free inputText (begin M) Hb) as Hall.
    rewrite Forall_forall in Hall. now apply Hall.
  - now apply find_first_prefix_none.
Qed.

End ParserMore.

Lemma processText_plain_witness :
  includes (str "just prose") (begin Sample.markers) = false /\
  includes (str "just prose") (end_ Sample.markers) = false /\
  processText Sample.markers (str "just prose")
    = [MarkdownSection (KeyText 0) (str "just prose")].
Proof.
  split; [reflexivity|]. split; [reflexivity|].
  exact (proj1 (processText_plain Sample.markers (str "just prose")
                  eq_refl eq_refl)).
Defined.

Lemma processText_lossless_witness :
  begin Sample.markers <> [] /\
  concat (map (source_of Sample.markers)
            (processText Sample.markers
               (str "a----END-SNIPPET----b----BEGIN-SNIPPET----c")))
  = str "a----END-SNIPPET----b----BEGIN-SNIPPET----c".
Proof.
  assert (Hne : begin Sample.markers <> []) by discriminate.
  split; [exact Hne|].
  exact (processText_lossless Sample.markers _ Hne).
Defined.

Lemma processText_snippets_marker_free_witness :
  begin Sample.markers <> [] /\
  end_ Sample.markers <> [] /\
  Forall (fun c => includes c (begin Sample.markers) = false /\
                   includes c (end_ Sample.markers) = false)
    (snippets (processText Sample.markers
                 (str "x----BEGIN-SNIPPET----y----END-SNIPPET----z"))).
Proof.
  assert (Hb : begin Sample.markers <> []) by discriminate.
  assert (He : end_ Sample.markers <> []) by discriminate.
  split; [exact Hb|]. split; [exact He|].
  exact (processText_snippets_marker_free Sample.markers _ Hb He).
Defined.

(* ================================================================== *)
(** * Picked text files *)
(* ================================================================== *)

Import MessageBox MessageBoxMore.

Section TextFiles.

Variable M : SnippetMarkers.
Hypothesis Hmarkers : well_formed_markers M.

Lemma processSection_wrapped_rest T index :
  includes T (end_ M) = false ->
  processSection M [] (wrapped_rest M T) index =
  [FoldableTextSection (KeyFoldable index) (wrapped_body T);
   MarkdownSection (KeyTextAfter index) [LF]].
Proof.
  intros He.
  rewrite (processSection_terminated M (wrapped_rest M T) index _
             (rest_end_position M Hmarkers T He)).
  unfold wrapped_rest at 1 2 3.
  rewrite firstn_app, firstn_all, Nat.sub_diag. simpl firstn.
  rewrite app_nil_r.
  rewrite app_assoc, skipn_app, skipn_all2, length_app
    by (rewrite length_app; lia).
  replace (length (wrapped_body T) + length (end_ M)
           - (length (wrapped_body T) + length (end_ M)))
    with 0 by lia.
  reflexivity.
Qed.

(** X5.  What the picker inserts for a text file parses back.  For
    markers without line feed, the begin marker not inside the end
    marker, a file content without markers and a header [File: name:]
    without markers: the inserted text yields the header line as a
    markdown section, the content between its two line feeds as the one
    foldable snippet, and the final line feed as a markdown section. *)
Theorem processText_formattedText name textContent :
  includes textContent (begin M) = false ->
  includes textContent (end_ M) = false ->
  includes (str "File: " ++ name ++ str ":") (begin M) = false ->
  includes (str "File: " ++ name ++ str ":") (end_ M) = false ->
  processText M (formattedText M name textContent) =
  [MarkdownSection (KeyText 0) (str "File: " ++ name ++ str ":" ++ [LF]);
   FoldableTextSection (KeyFoldable 1) ([LF] ++ textContent ++ [LF]);
   MarkdownSection (KeyTextAfter 1) [LF]].
Proof.
  intros Hcb Hce Hhb Hhe.
  destruct Hmarkers as (Hlb & Hle & _).
  pose proof (includes_false_nonempty _ _ Hcb) as Hbne.
  pose proof (includes_false_nonempty _ _ Hce) as Hene.
  set (header := str "File: " ++ name ++ str ":") in *.
  assert (Hshape : formattedText M name textContent =
                   header ++ LF :: (begin M ++ wrapped_rest M textContent)).
  { unfold formattedText, header, wrapped_rest, wrapped_body.
    rewrite <- !app_assoc. reflexivity. }
  assert (Hq : find_first (formattedText M name textContent) (begin M)
               = Some (length (header ++ [LF]))).
  { rewrite Hshape, find_first_app_sep, find_first_app;
      [|assumption|assumption|now apply includes_false].
    unfold option_map. rewrite length_app. f_equal.
    change (length [LF]) with 1. lia. }
  assert (Hfirst : find_first (header ++ [LF]) (end_ M) = None).
  { rewrite find_first_app_sep;
      [|assumption|assumption|now apply includes_false].
    now rewrite (find_first_nil _ Hene). }
  unfold processText. rewrite (split_unfold _ _ Hbne), Hq.
  replace (formattedText M name textContent)
    with ((header ++ [LF]) ++ begin M ++ wrapped_rest M textContent)
    by (rewrite Hshape, <- app_assoc; reflexivity).
  rewrite firstn_app, firstn_all, Nat.sub_diag. simpl firstn.
  rewrite app_nil_r.
  rewrite app_assoc, <- length_app, skipn_app, skipn_all, Nat.sub_diag.
  change ([] ++ skipn 0 (wrapped_rest M textContent))
    with (wrapped_rest M textContent).
  rewrite (split_unfold _ _ Hbne),
    (rest_has_no_begin M Hmarkers textContent Hcb).
  rewrite forEach_cons, processSection_cases, Hfirst.
  rewrite forEach_cons, (processSection_wrapped_rest textContent 1 Hce).
  unfold header, wrapped_body. simpl. rewrite <- !app_assoc. reflexivity.
Qed.

End TextFiles.

Lemma processText_formattedText_witness :
  well_formed_markers Sample.markers /\
  includes (str "x = 1") (begin Sample.markers) = false /\
  includes (str "x = 1") (end_ Sample.markers) = false /\
  includes (str "File: " ++ str "a.py" ++ str ":") (begin Sample.markers)
    = false /\
  includes (str "File: " ++ str "a.py" ++ str ":") (end_ Sample.markers)
    = false /\
  snippets (processText Sample.markers
              (formattedText Sample.markers (str "a.py") (str "x = 1")))
  = [[LF] ++ str "x = 1" ++ [LF]].
Proof.
  split; [exact sample_markers_well_formed|].
  repeat (split; [reflexivity|]).
  now rewrite (processText_formattedText Sample.markers
                 sample_markers_well_formed (str "a.py") (str "x = 1")
                 eq_refl eq_refl eq_refl eq_refl).
Defined.

(* ================================================================== *)
(** * Further properties of the composer *)
(* ================================================================== *)

Section ComposerMore.

Variable M : SnippetMarkers.
Variable MAX_ROWS : nat.
Variable MAX_IMAGES : nat.
Variable preprocessImage : File -> jsstring * File.

(** ** Clearing *)

Lemma reset_clear st : reset st = clearValueAndUndoHistory st.
Proof.
  unfold reset, clearValueAndUndoHistory, setTextAreaValue, onTextArea.
  destruct st as [? ? ? ? [[v s e]|] ? ? ? ? ? ?]; simpl; [|reflexivity].
  unfold set_value. simpl.
  destruct (eqb [] v) eqn:V; simpl; rewrite ?V; simpl; [|reflexivity].
  apply eqb_true_iff in V. now subst v.
Qed.

(** X6.  [reset] does what [clearInputValue] does, its three further
    calls change nothing.  Either empties the buffer with its mirrors and
    the attachments and puts the saved selection at [{0, 0}]; it leaves the
    mode, the loading flag, the pending callbacks and the calls made so far
    alone, and doing it twice is doing it once. *)
Theorem reset_is_clearInputValue st :
  reset st = clearInputValue st /\
  draftText (reset st) = [] /\
  textValue (reset st) = [] /\
  isTextEmpty (reset st) = true /\
  option_map value (textAreaRef (reset st)) =
    option_map (fun _ => []) (textAreaRef st) /\
  fileDataRef (reset st) = [] /\
  selectionRef (reset st) = {| start := 0; end' := 0 |} /\
  isExpanded (reset st) = isExpanded st /\
  loading (reset st) = loading st /\
  pending (reset st) = pending st /\
  calls (reset st) = calls st /\
  reset (reset st) = reset st.
Proof.
  unfold reset, clearInputValue, clearValueAndUndoHistory, setTextAreaValue,
    onTextArea.
  destruct st as [? ? ? ? [[v s e]|] ? ? ? ? ? ?]; simpl;
    [|repeat split; reflexivity].
  unfold set_value. simpl.
  destruct (eqb [] v) eqn:V; simpl; rewrite ?V; simpl.
  - apply eqb_true_iff in V. subst v. repeat split; reflexivity.
  - repeat split; reflexivity.
Qed.

(** ** Removing an attachment *)

Lemma filterIndex_removeAt {A : Type} (l : list A) : forall index i,
  filterIndex index i l =
  if index <? i then l else removeAt (index - i) l.
Proof.
  induction l as [|x l IH]; intros index i.
  - unfold removeAt. rewrite firstn_nil, skipn_nil.
    now destruct (index <? i).
  - simpl filterIndex. rewrite IH.
    destruct (Nat.eqb_spec i index) as [->|Hne].
    + rewrite Nat.sub_diag.
      replace (index <? S index) with true
        by (symmetry; apply Nat.ltb_lt; lia).
      replace (index <? index) with false
        by (symmetry; apply Nat.ltb_ge; lia).
      reflexivity.
    + destruct (Nat.ltb_spec index i) as [Hlt|Hge].
      * replace (index <? S i) with true
          by (symmetry; apply Nat.ltb_lt; lia).
        reflexivity.
      * replace (index <? S i) with false
          by (symmetry; apply Nat.ltb_ge; lia).
        replace (index - i) with (S (index - S i)) by lia.
        reflexivity.
Qed.

(** X7.  [handleRemoveFileData] keeps exactly the attachments whose
    position differs from the index, in their order.  An index inside the
    store removes one attachment, the ones behind it move up by one; an
    index outside leaves the store as it is.  The buffer and the calls are
    not touched, and removing the last position after an append undoes
    the append. *)
Theorem handleRemoveFileData_effect index st :
  let st' := handleRemoveFileData index st in
  fileDataRef st' = filterIndex index 0 (fileDataRef st) /\
  (index < length (fileDataRef st) ->
     S (length (fileDataRef st')) = length (fileDataRef st) /\
     forall i, nth_error (fileDataRef st') i =
               nth_error (fileDataRef st) (if i <? index then i else S i)) /\
  (length (fileDataRef st) <= index -> fileDataRef st' = fileDataRef st) /\
  same_buffer st' st /\
  calls st' = calls st /\
  (forall f,
     fileDataRef (handleRemoveFileData (length (fileDataRef st))
                    (runTask M (AppendFile f) st)) = fileDataRef st).
Proof.
  intros st'. subst st'. unfold handleRemoveFileData. simpl.
  split; [|split; [|split; [|split; [|split]]]].
  - rewrite filterIndex_removeAt. simpl. now rewrite Nat.sub_0_r.
  - intros Hlt. unfold removeAt. split.
    + rewrite length_app, length_firstn, length_skipn. lia.
    + intros i. destruct (Nat.ltb_spec i index) as [Hi|Hi].
      * rewrite nth_error_app1 by (rewrite length_firstn; lia).
        rewrite nth_error_firstn.
        now replace (i <? index) with true
          by (symmetry; apply Nat.ltb_lt; lia).
      * rewrite nth_error_app2 by (rewrite length_firstn; lia).
        rewrite length_firstn, Nat.min_l by lia.
        rewrite nth_error_skipn. f_equal. lia.
  - intros Hge. unfold removeAt.
    rewrite firstn_all2, skipn_all2 by lia. apply app_nil_r.
  - now unfold same_buffer.
  - reflexivity.
  - intros f. unfold removeAt.
    rewrite firstn_app, firstn_all, Nat.sub_diag, skipn_all2
      by (rewrite length_app; simpl; lia).
    simpl. now rewrite !app_nil_r.
Qed.

(** ** The picker *)

(** X8.  Once the store seen by the render that opened the dialog holds
    [MAX_IMAGES] attachments or more, a pick adds no image, however many
    are picked: the store is unchanged and the only callbacks queued are
    the reads of the picked text files.  Files that are neither images nor
    text are ignored. *)
Theorem handleAttachment_cap_reached rendered files st :
  MAX_IMAGES <= length (fileDataRef rendered) ->
  handleAttachment MAX_IMAGES preprocessImage rendered files st =
    with_pending (pending st ++ textFileTasks files) st /\
  fileDataRef (handleAttachment MAX_IMAGES preprocessImage rendered files st)
    = fileDataRef st /\
  Forall (fun t => forall f, t <> AppendFile f) (textFileTasks files).
Proof.
  intros Hcap.
  assert (E : handleAttachment MAX_IMAGES preprocessImage rendered files st =
              with_pending (pending st ++ textFileTasks files) st).
  { unfold handleAttachment. generalize 0. revert st.
    induction files as [|f files IH]; intros st index.
    - simpl. now rewrite app_nil_r, with_pending_id.
    - simpl UserContentBlock.forEach. rewrite IH.
      unfold attachFile, textFileTasks. cbn [flat_map].
      replace (MAX_IMAGES <=? length (fileDataRef rendered)) with true
        by (symmetry; apply Nat.leb_le; lia).
      destruct (startsWith (file_type f) (str "image/")); [reflexivity|].
      destruct (startsWith (file_type f) (str "text/")); [|reflexivity].
      unfold defer. cbn [pending with_pending].
      now rewrite <- app_assoc. }
  split; [exact E|]. split; [now rewrite E|].
  unfold textFileTasks. apply Forall_flat_map. apply Forall_forall.
  intros f _.
  destruct (startsWith (file_type f) (str "image/")); [constructor|].
  destruct (startsWith (file_type f) (str "text/")); [|constructor].
  constructor; [discriminate|constructor].
Qed.

(** ** Two insertions in a row *)

(** X10.  Insertions compose.  With the text area mounted, its selection
    inside its value, no carriage return in its value nor in [a], and
    nothing else pending: inserting [a], letting the scheduled cursor move
    run, and inserting [b] gives the buffer, the text area and the saved
    selection that inserting [a ++ b] at once gives. *)
Theorem pasteText_twice a b st ta :
  textAreaRef st = Some ta ->
  valid_selection ta ->
  ~ In CR (value ta) ->
  ~ In CR a ->
  pending st = [] ->
  let separately := run M 1 (pasteText b (run M 1 (pasteText a st))) in
  let together := run M 1 (pasteText (a ++ b) st) in
  draftText separately = draftText together /\
  textValue separately = textValue together /\
  textAreaRef separately = textAreaRef together /\
  selectionRef separately = selectionRef together /\
  draftText together = spliced ta (a ++ b).
Proof.
  intros Hta Hv Hcr Hcra Hp.
  assert (Hone : forall text s t,
            textAreaRef s = Some t -> pending s = [] ->
            let s' := run M 1 (pasteText text s) in
            let pos := selectionStart t + length text in
            let shown := normalizeNewlines (spliced t text) in
            draftText s' = spliced t text /\
            textValue s' = spliced t text /\
            textAreaRef s' =
              Some {| value := shown;
                      selectionStart := Nat.min pos (length shown);
                      selectionEnd := Nat.min pos (length shown) |} /\
            selectionRef s' = {| start := pos; end' := pos |} /\
            pending s' = []).
  { intros text s t Ht Hps. unfold pasteText.
    destruct (insertTextAtCursorPosition_buffer text s t Ht)
      as (Hd & Htv & Hval & Hsel & Hpend & _).
    rewrite Hps in Hpend. simpl in Hpend.
    simpl run. unfold step. rewrite Hpend.
    unfold runTask, onTextArea. simpl.
    destruct (textAreaRef (insertTextAtCursorPosition text s))
      as [t'|] eqn:E; [|discriminate].
    simpl in Hval. injection Hval as Hval. simpl.
    rewrite move_cursor_clamped, Hval. now repeat split. }
  intros separately together.
  destruct (Hone a st ta Hta Hp) as (_ & _ & Hta1 & _ & Hp1).
  assert (Hida : normalizeNewlines (spliced ta a) = spliced ta a)
    by (apply normalizeNewlines_id; now apply splice_noCR).
  pose proof (spliced_length ta a Hv) as Hlen.
  rewrite Hida, Nat.min_l in Hta1 by exact Hlen.
  destruct (Hone b _ _ Hta1 Hp1) as (Hd2 & Ht2 & Hta2 & Hs2 & _).
  destruct (Hone (a ++ b) st ta Hta Hp) as (Hd & Ht & Hta' & Hs & _).
  fold separately in Hd2, Ht2, Hta2, Hs2.
  fold together in Hd, Ht, Hta', Hs.
  assert (Hsp : spliced {| value := spliced ta a;
                           selectionStart := selectionStart ta + length a;
                           selectionEnd := selectionStart ta + length a |} b
                = spliced ta (a ++ b)).
  { destruct Hv as [Hse Hel]. unfold spliced. simpl.
    assert (Hl : length (firstn (selectionStart ta) (value ta))
                 = selectionStart ta) by (rewrite length_firstn; lia).
    rewrite (app_assoc (firstn _ _) a).
    replace (selectionStart ta + length a)
      with (length (firstn (selectionStart ta) (value ta) ++ a))
      by (rewrite length_app; lia).
    rewrite firstn_app, firstn_all, Nat.sub_diag, skipn_app, skipn_all,
      Nat.sub_diag.
    simpl. rewrite app_nil_r, <- !app_assoc. reflexivity. }
  rewrite Hd2, Ht2, Hta2, Hs2, Hd, Ht, Hta', Hs, Hsp.
  rewrite !length_app. simpl selectionStart.
  rewrite <- !Nat.add_assoc. now repeat split.
Qed.

(** ** A picked text file, from the pick to the cursor *)



(** ** Pasting while images are not allowed *)

(** X12.  With [allowImageAttachment] at ['no'] the clipboard items play
    no part in a paste: the handler does what it does for the text alone,
    no attachment is queued, and the default action is prevented only for
    an oversized text. *)
Theorem paste_images_disallowed event st :
  allowImageAttachment st = str "no" ->
  let text_only := {| items := []; text_plain := text_plain event |} in
  ingested preprocessImage st (items event) = [] /\
  handlePaste M MAX_ROWS preprocessImage event st =
    handlePaste M MAX_ROWS preprocessImage text_only st /\
  paste M MAX_ROWS preprocessImage event st =
    paste M MAX_ROWS preprocessImage text_only st /\
  (snd (handlePaste M MAX_ROWS preprocessImage event st) = true ->
   oversized MAX_ROWS (text_plain event) = true).
Proof.
  intros Hno text_only.
  assert (Hnone : existsb (image_accepted st) (items event) = false).
  { induction (items event) as [|item l IH]; [reflexivity|].
    simpl. rewrite IH. unfold image_accepted. rewrite Hno.
    now rewrite andb_false_r. }
  assert (Hp : handlePaste M MAX_ROWS preprocessImage event st =
               handlePaste M MAX_ROWS preprocessImage text_only st).
  { unfold handlePaste.
    now rewrite (pasteItems_no_image preprocessImage _ _ Hnone). }
  split; [now apply ingested_none|]. split; [exact Hp|].
  split; [unfold paste; now rewrite Hp|].
  rewrite Hp. unfold handlePaste. simpl.
  destruct (includes _ (begin M) || includes _ (end_ M)); [discriminate|].
  destruct (oversized MAX_ROWS (text_plain event)); [reflexivity|discriminate].
Qed.

End ComposerMore.

(** ** The line count of the expanded editor *)

Lemma count_newlines_cons c s :
  count_newlines (c :: s) =
  (if Ascii.eqb c LF then 1 else 0) + count_newlines s.
Proof.
  unfold count_newlines. cbn [filter].
  destruct (Ascii.eqb_spec LF c) as [E|E], (Ascii.eqb_spec c LF) as [E'|E'];
    try congruence; reflexivity.
Qed.

Lemma splitLines_length : forall n s cur,
  length s <= n -> loneCR s = false ->
  length (splitLines s cur) = S (count_newlines s).
Proof.
  induction n as [|n IH]; intros s cur Hn Hcr.
  - destruct s; [reflexivity|simpl in Hn; lia].
  - destruct s as [|c s]; [reflexivity|].
    rewrite count_newlines_cons. simpl in Hn, Hcr |- *.
    destruct (Ascii.eqb_spec c CR) as [->|Hc].
    + destruct s as [|d s]; [discriminate|].
      rewrite count_newlines_cons.
      destruct (Ascii.eqb_spec d LF) as [->|Hd]; [|discriminate].
      simpl. rewrite IH by (simpl in Hn; lia || assumption). reflexivity.
    + destruct (Ascii.eqb_spec c LF) as [->|Hl]; simpl;
        rewrite IH by (lia || assumption); reflexivity.
Qed.

(** X13.  For a draft in which every carriage return is directly followed
    by a line feed (in particular a draft without carriage returns), the
    line count of the expanded editor is the number of line feeds plus
    one, the gutter shows the numbers from 1 to that count, and the paste
    rule reads: a text is oversized exactly when it has more lines than
    [MAX_ROWS] or more than [80 * MAX_ROWS] code units. *)
Theorem lineCount_counts_newlines (MAX_ROWS : nat) (draftText : jsstring) :
  loneCR draftText = false ->
  lineCount draftText = count_newlines draftText + 1 /\
  lineNumbers draftText = seq 1 (count_newlines draftText + 1) /\
  (oversized MAX_ROWS draftText = true <->
   MAX_ROWS < lineCount draftText \/ 80 * MAX_ROWS < length draftText).
Proof.
  intros Hcr.
  assert (E : lineCount draftText = count_newlines draftText + 1).
  { unfold lineCount. destruct draftText as [|c s]; [reflexivity|].
    simpl negb. cbv iota.
    rewrite (splitLines_length (length (c :: s))) by (lia || assumption).
    lia. }
  split; [exact E|]. split.
  - unfold lineNumbers. rewrite E, <- seq_shift.
    apply map_ext. intros i. lia.
  - rewrite E. unfold oversized.
    rewrite orb_true_iff, Nat.leb_le, Nat.ltb_lt. lia.
Qed.

Lemma lineCount_counts_newlines_witness :
  loneCR (str "a" ++ [CR; LF] ++ str "b" ++ [LF] ++ str "c") = false /\
  lineCount (str "a" ++ [CR; LF] ++ str "b" ++ [LF] ++ str "c") = 3 /\
  lineNumbers (str "a" ++ [CR; LF] ++ str "b" ++ [LF] ++ str "c")
    = [1; 2; 3].
Proof.
  destruct (lineCount_counts_newlines 20
              (str "a" ++ [CR; LF] ++ str "b" ++ [LF] ++ str "c") eq_refl)
    as (H1 & H2 & _).
  split; [reflexivity|]. split; [exact H1 | exact H2].
Defined.

(* ================================================================== *)
(** * The debounce of the resize *)
(* ================================================================== *)

Section Debounce.

Import ResizeScheduler.

(** At most one timer is scheduled, and the ref names it. *)
Lemma handle_single e t :
  (scheduled t = [] \/
   exists id, scheduled t = [id] /\ resizeTimeoutRef t = Some id) ->
  (scheduled (handle e t) = [] \/
   exists id, scheduled (handle e t) = [id] /\
              resizeTimeoutRef (handle e t) = Some id) /\
  (e = Request ->
   scheduled (handle e t) = [next_id t] /\
   resizeTimeoutRef (handle e t) = Some (next_id t)).
Proof.
  intros Inv. destruct e; simpl.
  - assert (E : scheduled (debouncedResize t) = [next_id t] /\
                resizeTimeoutRef (debouncedResize t) = Some (next_id t)).
    { unfold debouncedResize.
      destruct Inv as [Hs | (id & Hs & Hr)].
      - destruct (resizeTimeoutRef t); simpl; now rewrite Hs.
      - rewrite Hr. simpl. rewrite Hs. simpl.
        now rewrite Nat.eqb_refl. }
    split; [right; now exists (next_id t)|]. intros _. exact E.
  - split; [|discriminate]. unfold fire.
    destruct Inv as [Hs | (id & Hs & Hr)]; rewrite Hs; simpl; now left.
Qed.

Lemma handleAll_single l : forall t,
  (scheduled t = [] \/
   exists id, scheduled t = [id] /\ resizeTimeoutRef t = Some id) ->
  scheduled (handleAll l t) = [] \/
  exists id, scheduled (handleAll l t) = [id] /\
             resizeTimeoutRef (handleAll l t) = Some id.
Proof.
  induction l as [|e l IH]; intros t Inv; [exact Inv|].
  simpl. apply IH. now apply handle_single.
Qed.

Lemma handleAll_app l1 l2 t :
  handleAll (l1 ++ l2) t = handleAll l2 (handleAll l1 t).
Proof. apply fold_left_app. Qed.

(** X14.  The resize is debounced.  Whatever requests and timer expiries
    have occurred since the component was mounted, at most one resize
    timer is scheduled, and it is the one [resizeTimeoutRef] names.  After
    a request exactly one is scheduled, however many requests came right
    before it, and when it has fired none is left. *)
Theorem debouncedResize_single_timer (l : list Event) :
  let t := handleAll l mounted in
  length (scheduled t) <= 1 /\
  (forall id, In id (scheduled t) -> resizeTimeoutRef t = Some id) /\
  (forall n,
     length (scheduled (handleAll (repeat Request (S n)) t)) = 1 /\
     scheduled (handleAll (repeat Request (S n) ++ [Elapse]) t) = []).
Proof.
  intros t.
  assert (Inv : scheduled t = [] \/
                exists id, scheduled t = [id] /\ resizeTimeoutRef t = Some id)
    by (apply handleAll_single; now left).
  split; [|split].
  - destruct Inv as [-> | (id & -> & _)]; simpl; lia.
  - intros id Hin. destruct Inv as [Hs | (id' & Hs & Hr)];
      rewrite Hs in Hin; simpl in Hin; [easy|].
    destruct Hin as [<-|[]]. exact Hr.
  - intros n.
    assert (Hone : exists id,
              scheduled (handleAll (repeat Request (S n)) t) = [id]).
    { replace (S n) with (n + 1) by lia.
      rewrite repeat_app, handleAll_app.
      change (handleAll (repeat Request 1) ?x) with (handle Request x).
      pose proof (handleAll_single (repeat Request n) t Inv) as Inv'.
      destruct (handle_single Request _ Inv') as (_ & Hreq).
      destruct (Hreq eq_refl) as (Hs & _). eauto. }
    destruct Hone as (id & Hs). split; [now rewrite Hs|].
    rewrite handleAll_app.
    change (handleAll [Elapse] ?x) with (fire x).
    unfold fire. now rewrite Hs.
Qed.

End Debounce.

(* ================================================================== *)
(** * What every sequence of actions keeps *)
(* ================================================================== *)

Section Invariants.

Variable M : SnippetMarkers.
Variable MAX_ROWS : nat.
Variable MAX_IMAGES : nat.
Variable preprocessImage : File -> jsstring * File.
Variable isMacPlatform : bool.

(** ** The buffer and its mirrors *)

(** [consistent] only reads the five fields [same_buffer] compares. *)
Lemma consistent_same_buffer st st' :
  same_buffer st' st -> consistent st -> consistent st'.
Proof.
  intros (Hd & Ht & Hi & Ha & Hs) (C1 & C2 & C3 & C4 & C5).
  unfold consistent. rewrite Hd, Ht, Hi, Ha, Hs.
  exact (conj C1 (conj C2 (conj C3 (conj C4 C5)))).
Qed.

Lemma consistent_with_pending p st :
  consistent st -> consistent (with_pending p st).
Proof. apply consistent_same_buffer. now unfold same_buffer. Qed.

Lemma setSelectionRange_valid s e ta :
  value (setSelectionRange s e ta) = value ta /\
  selectionStart (setSelectionRange s e ta)
    <= selectionEnd (setSelectionRange s e ta) /\
  selectionEnd (setSelectionRange s e ta) <= length (value ta).
Proof. unfold setSelectionRange. simpl. repeat split; lia. Qed.

(** Moving the selection of the text area keeps the state consistent. *)
Lemma consistent_select (f : TextArea -> TextArea) st :
  (forall ta, value (f ta) = value ta /\
              selectionStart (f ta) <= selectionEnd (f ta) /\
              selectionEnd (f ta) <= length (value (f ta))) ->
  consistent st -> consistent (onTextArea f st).
Proof.
  intros Hf (C1 & C2 & C3 & C4 & C5). unfold onTextArea.
  destruct (textAreaRef st) as [ta|] eqn:E;
    [|unfold consistent; rewrite E; now repeat split].
  destruct (C3 ta eq_refl) as (Hv & _).
  destruct (Hf ta) as (Hv' & Hs & He).
  unfold consistent. simpl. repeat split; try assumption;
    injection H as <-; try assumption.
  now rewrite Hv'.
Qed.

Lemma consistent_cursor a b st :
  consistent st ->
  consistent (onTextArea (fun ta => set_selectionEnd b
                                      (set_selectionStart a ta)) st).
Proof.
  apply consistent_select. intros ta.
  unfold set_selectionEnd, set_selectionStart.
  destruct (setSelectionRange_valid a (Nat.max (selectionEnd ta) a) ta)
    as (Hv & _).
  destruct (setSelectionRange_valid
              (selectionStart
                 (setSelectionRange a (Nat.max (selectionEnd ta) a) ta))
              b (setSelectionRange a (Nat.max (selectionEnd ta) a) ta))
    as (Hv' & Hs & He).
  split; [congruence|]. split; [assumption|].
  rewrite Hv'. exact He.
Qed.

Lemma consistent_captureSelection st :
  consistent st -> consistent (captureSelection st).
Proof.
  intros C. pose proof C as (C1 & C2 & C3 & C4 & C5).
  unfold captureSelection.
  destruct (textAreaRef st) as [ta|] eqn:E; [|exact C].
  destruct (C3 ta eq_refl) as (Hv & Hs & He).
  unfold consistent. simpl. rewrite E.
  repeat split; try assumption; try (now apply C3); lia.
Qed.

(** [setTextAreaValue] makes a state consistent whose text area has its
    selection inside its value. *)
Lemma consistent_setTextAreaValue v st :
  (forall ta, textAreaRef st = Some ta ->
     selectionStart ta <= selectionEnd ta /\
     selectionEnd ta <= length (value ta)) ->
  consistent (setTextAreaValue v st).
Proof.
  intros Hta. unfold setTextAreaValue, onTextArea, consistent.
  destruct st as [? ? ? ? [ta|] ? ? ? ? ? ?]; simpl in *.
  - destruct (Hta ta eq_refl) as (Hs & He).
    pose proof (normalizeNewlines_length v) as Hn.
    repeat split; try lia;
      injection H as <-; unfold set_value; cbv zeta;
      destruct (eqb (normalizeNewlines v) (value ta)) eqn:E; simpl;
      try lia.
    apply eqb_true_iff in E. now rewrite <- E.
  - repeat split; try lia; discriminate.
Qed.

Lemma consistent_valid st :
  consistent st ->
  forall ta, textAreaRef st = Some ta ->
    selectionStart ta <= selectionEnd ta /\
    selectionEnd ta <= length (value ta).
Proof. intros (_ & _ & C3 & _) ta Hta. now apply C3. Qed.

Lemma consistent_insert text st :
  consistent st -> consistent (insertTextAtCursorPosition text st).
Proof.
  intros C. unfold insertTextAtCursorPosition.
  destruct (textAreaRef st) as [ta|] eqn:E; [|exact C].
  destruct (consistent_valid st C ta E) as (Hs & He).
  rewrite substring_prefix, substring_from_suffix. fold (spliced ta text).
  apply consistent_with_pending.
  pose proof (consistent_setTextAreaValue (spliced ta text)
                (setTextValue (spliced ta text) st)) as C'.
  assert (Hpre : forall t, textAreaRef (setTextValue (spliced ta text) st)
                             = Some t ->
                 selectionStart t <= selectionEnd t /\
                 selectionEnd t <= length (value t))
    by (intros t Ht; simpl in Ht; now apply (consistent_valid st C)).
  specialize (C' Hpre). destruct C' as (C1 & C2 & C3 & C4 & C5).
  pose proof (spliced_length ta text (conj Hs He)) as Hlen.
  unfold consistent. simpl in *.
  repeat split; try assumption; try (now apply C3); lia.
Qed.

Lemma consistent_handleTextChange target st :
  selectionStart target <= selectionEnd target /\
  selectionEnd target <= length (value target) ->
  consistent (handleTextChange target (with_textArea (Some target) st)).
Proof.
  intros (Hs & He). unfold handleTextChange, consistent. simpl.
  repeat split; try assumption; injection H as <-;
    reflexivity || assumption.
Qed.

Lemma consistent_nativeInput text st :
  consistent st -> consistent (nativeInput text st).
Proof.
  intros C. unfold nativeInput.
  destruct (textAreaRef st) as [ta|] eqn:E; [|exact C].
  destruct (truthy (normalizeNewlines text)); [|exact C].
  destruct (consistent_valid st C ta E) as (Hs & He).
  apply consistent_handleTextChange. simpl. split; [lia|].
  apply (spliced_length ta (normalizeNewlines text)). now split.
Qed.

Lemma consistent_submit st : consistent st -> consistent (handleSubmit st).
Proof.
  intros C. unfold handleSubmit, focusComposer, defer.
  apply consistent_with_pending.
  apply (consistent_same_buffer
           (setTextAreaValue []
              (callApp (draftText st)
                 (if eqb (allowImageAttachment (setTextValue (draftText st) st))
                       (str "yes")
                  then fileDataRef st else [])
                 (setTextValue (draftText st) st)))).
  - unfold same_buffer. simpl. now repeat split.
  - apply consistent_setTextAreaValue. intros ta Hta. simpl in Hta.
    now apply (consistent_valid st C).
Qed.

Lemma consistent_checkForSpecialKey e st :
  consistent st -> consistent (fst (checkForSpecialKey e st)).
Proof.
  intros C.
  destruct (eqb (key e) (str "Enter")) eqn:K;
    [|unfold checkForSpecialKey; now rewrite K].
  destruct (shiftKey e) eqn:S;
    [unfold checkForSpecialKey; now rewrite K, S|].
  destruct (loading st) eqn:L;
    [unfold checkForSpecialKey; now rewrite K, S, L|].
  apply eqb_true_iff in K. destruct e as [k sh].
  cbn [key shiftKey] in K, S. subst.
  rewrite (enter_is_submit st false eq_refl L). now apply consistent_submit.
Qed.

Lemma consistent_clear st :
  consistent st -> consistent (clearValueAndUndoHistory st).
Proof.
  intros C. unfold clearValueAndUndoHistory.
  apply (consistent_same_buffer
           (setTextAreaValue [] (setTextValue [] (setFileDataRef [] st)))).
  - destruct st as [? ? ? ? [ta|] ? ? ? ? ? ?]; now unfold same_buffer.
  - apply consistent_setTextAreaValue. intros ta Hta. simpl in Hta.
    now apply (consistent_valid st C).
Qed.

Lemma consistent_reset st : consistent st -> consistent (reset st).
Proof. rewrite reset_clear. apply consistent_clear. Qed.

Lemma handleAttachment_defers rendered files : forall st,
  exists tasks,
    handleAttachment MAX_IMAGES preprocessImage rendered files st =
    with_pending (pending st ++ tasks) st.
Proof.
  unfold handleAttachment. generalize 0.
  induction files as [|f files IH]; intros index st.
  - exists []. simpl. now rewrite app_nil_r, with_pending_id.
  - simpl UserContentBlock.forEach.
    destruct (IH (S index) (attachFile MAX_IMAGES preprocessImage rendered
                              st f index)) as (tasks & ->).
    unfold attachFile.
    destruct (startsWith (file_type f) (str "image/")).
    + destruct (MAX_IMAGES <=? length (fileDataRef rendered));
        [now exists tasks|].
      eexists. unfold defer. simpl. now rewrite <- app_assoc.
    + destruct (startsWith (file_type f) (str "text/"));
        [|now exists tasks].
      eexists. unfold defer. simpl. now rewrite <- app_assoc.
Qed.

Lemma consistent_runTask t st :
  consistent st -> consistent (runTask M t st).
Proof.
  intros C. destruct t as [| pos | f | name result | pos];
    unfold runTask; cbv zeta.
  - now apply consistent_cursor.
  - now apply consistent_cursor.
  - revert C. apply consistent_same_buffer. now unfold same_buffer.
  - match goal with
    | |- context [insertTextAtCursorPosition ?x st] => set (ins := x)
    end.
    pose proof (consistent_captureSelection _ (consistent_insert ins st C))
      as C'.
    destruct (textAreaRef (captureSelection
                             (insertTextAtCursorPosition ins st)));
      [now apply consistent_with_pending|exact C'].
  - now apply consistent_cursor.
Qed.

Lemma consistent_perform a st :
  admissible a -> consistent st ->
  consistent (perform M MAX_ROWS MAX_IMAGES preprocessImage isMacPlatform
                a st).
Proof.
  intros Ha C. destruct a; simpl in *.
  - destruct (textAreaRef st); [|exact C].
    now apply consistent_handleTextChange.
  - unfold paste, handlePaste. rewrite pasteItems_spec.
    set (st1 := with_pending _ st).
    assert (C1 : consistent st1) by now apply consistent_with_pending.
    destruct (includes _ (begin M) || includes _ (end_ M)).
    + destruct (false || existsb _ _); [exact C1|].
      now apply consistent_nativeInput.
    + destruct (oversized MAX_ROWS (text_plain event)).
      * now apply consistent_insert.
      * destruct (false || existsb _ _); [exact C1|].
        now apply consistent_nativeInput.
  - unfold pressEnter.
    pose proof (consistent_checkForSpecialKey
                  {| key := str "Enter"; shiftKey := shift |} st C) as C'.
    destruct (checkForSpecialKey _ st) as [st' prevented]. simpl in C'.
    destruct prevented; [exact C'|]. now apply consistent_nativeInput.
  - now apply consistent_checkForSpecialKey.
  - now apply consistent_submit.
  - revert C. apply consistent_same_buffer. now unfold same_buffer.
  - destruct (handleAttachment_defers rendered files st) as (tasks & ->).
    now apply consistent_with_pending.
  - revert C. apply consistent_same_buffer. now unfold same_buffer.
  - unfold handleExpandEditor.
    generalize (consistent_captureSelection st C).
    apply consistent_same_buffer. now unfold same_buffer.
  - unfold handleCollapseEditor.
    generalize (consistent_captureSelection st C).
    apply consistent_same_buffer. now unfold same_buffer.
  - unfold handleGlobalShortcut.
    destruct (_ && _ && _); [|exact C]. simpl.
    destruct (isExpanded st).
    + unfold handleCollapseEditor.
      generalize (consistent_captureSelection st C).
      apply consistent_same_buffer. now unfold same_buffer.
    + unfold handleExpandEditor.
      generalize (consistent_captureSelection st C).
      apply consistent_same_buffer. now unfold same_buffer.
  - now apply consistent_clear.
  - now apply consistent_reset.
  - revert C. apply consistent_same_buffer. now unfold same_buffer.
  - now apply consistent_insert.
  - unfold runPending. destruct (nth_error (pending st) i); [|exact C].
    apply consistent_runTask. now apply consistent_with_pending.
Qed.

Lemma consistent_initial loading0 allow : consistent (initial loading0 allow).
Proof.
  unfold consistent, initial. simpl. repeat split; try lia;
    now injection H as <-.
Qed.

Lemma consistent_performAll l : forall st,
  Forall admissible l -> consistent st ->
  consistent (performAll M MAX_ROWS MAX_IMAGES preprocessImage isMacPlatform
                l st).
Proof.
  induction l as [|a l IH]; intros st Hl C; [exact C|].
  inversion Hl; subst. simpl. apply IH; [assumption|].
  now apply consistent_perform.
Qed.

(** ** What the text area shows *)

(** [mirrored] only reads the text area and the buffer. *)
Lemma mirrored_same st st' :
  textAreaRef st' = textAreaRef st -> draftText st' = draftText st ->
  mirrored st -> mirrored st'.
Proof. unfold mirrored. intros -> ->. trivial. Qed.

Lemma mirrored_same_buffer st st' :
  same_buffer st' st -> mirrored st -> mirrored st'.
Proof. intros (Hd & _ & _ & Ha & _). now apply mirrored_same. Qed.

Lemma mirrored_with_pending p st : mirrored st -> mirrored (with_pending p st).
Proof. now apply mirrored_same. Qed.

(** Moving the selection of the text area changes nothing it shows. *)
Lemma mirrored_select (f : TextArea -> TextArea) st :
  (forall ta, value (f ta) = value ta) ->
  mirrored st -> mirrored (onTextArea f st).
Proof.
  intros Hf C. unfold onTextArea.
  destruct (textAreaRef st) as [ta|] eqn:E; [|exact C].
  intros ta' Hta'. simpl in Hta'. injection Hta' as <-.
  rewrite Hf. simpl. now apply C.
Qed.

Lemma mirrored_cursor a b st :
  mirrored st ->
  mirrored (onTextArea (fun ta => set_selectionEnd b
                                    (set_selectionStart a ta)) st).
Proof. now apply mirrored_select. Qed.

Lemma mirrored_captureSelection st :
  mirrored st -> mirrored (captureSelection st).
Proof.
  unfold captureSelection. destruct (textAreaRef st) eqn:E; [|trivial].
  now apply mirrored_same.
Qed.

(** [setTextAreaValue] writes the same text to the buffer and to the text
    area, which normalises it. *)
Lemma mirrored_setTextAreaValue v st : mirrored (setTextAreaValue v st).
Proof.
  unfold setTextAreaValue, onTextArea, mirrored.
  destruct st as [? ? ? ? [ta|] ? ? ? ? ? ?]; simpl; [|discriminate].
  intros ta' H. injection H as <-. unfold set_value. cbv zeta.
  destruct (eqb (normalizeNewlines v) (value ta)) eqn:E; [|reflexivity].
  apply eqb_true_iff in E. now rewrite <- E.
Qed.

Lemma mirrored_insert text st :
  mirrored st -> mirrored (insertTextAtCursorPosition text st).
Proof.
  intros C. unfold insertTextAtCursorPosition.
  destruct (textAreaRef st) as [ta|] eqn:E; [|exact C].
  apply mirrored_with_pending.
  match goal with
  | |- mirrored (with_selectionRef ?r (setTextAreaValue ?v ?s)) =>
      apply (mirrored_same (setTextAreaValue v s));
        [reflexivity|reflexivity|apply mirrored_setTextAreaValue]
  end.
Qed.

Lemma mirrored_handleTextChange target st :
  normalizeNewlines (value target) = value target ->
  mirrored (handleTextChange target (with_textArea (Some target) st)).
Proof.
  intros Hn ta H. unfold handleTextChange in *. simpl in *.
  injection H as <-. now rewrite Hn.
Qed.

(** What the browser puts into a text area that holds no carriage return
    holds none either. *)
Lemma mirrored_nativeInput text st :
  mirrored st -> mirrored (nativeInput text st).
Proof.
  intros C. unfold nativeInput.
  destruct (textAreaRef st) as [ta|] eqn:E; [|exact C].
  destruct (truthy (normalizeNewlines text)); [|exact C].
  apply mirrored_handleTextChange. simpl.
  apply normalizeNewlines_id, splice_noCR.
  - rewrite (C ta E). apply normalizeNewlines_noCR.
  - apply normalizeNewlines_noCR.
Qed.

Lemma mirrored_submit st : mirrored st -> mirrored (handleSubmit st).
Proof.
  intros _. unfold handleSubmit, focusComposer, defer.
  apply mirrored_with_pending.
  apply (mirrored_same
           (setTextAreaValue []
              (callApp (draftText st)
                 (if eqb (allowImageAttachment (setTextValue (draftText st) st))
                       (str "yes")
                  then fileDataRef st else [])
                 (setTextValue (draftText st) st))));
    [reflexivity|reflexivity|apply mirrored_setTextAreaValue].
Qed.

Lemma mirrored_checkForSpecialKey e st :
  mirrored st -> mirrored (fst (checkForSpecialKey e st)).
Proof.
  intros C.
  destruct (eqb (key e) (str "Enter")) eqn:K;
    [|unfold checkForSpecialKey; now rewrite K].
  destruct (shiftKey e) eqn:S;
    [unfold checkForSpecialKey; now rewrite K, S|].
  destruct (loading st) eqn:L;
    [unfold checkForSpecialKey; now rewrite K, S, L|].
  apply eqb_true_iff in K. destruct e as [k sh].
  cbn [key shiftKey] in K, S. subst.
  rewrite (enter_is_submit st false eq_refl L). now apply mirrored_submit.
Qed.

Lemma mirrored_clear st : mirrored (clearValueAndUndoHistory st).
Proof.
  unfold clearValueAndUndoHistory.
  apply (mirrored_same
           (setTextAreaValue [] (setTextValue [] (setFileDataRef [] st))));
    [| |apply mirrored_setTextAreaValue];
    now destruct st as [? ? ? ? [ta|] ? ? ? ? ? ?].
Qed.

Lemma mirrored_runTask t st : mirrored st -> mirrored (runTask M t st).
Proof.
  intros C. destruct t as [| pos | f | name result | pos];
    unfold runTask; cbv zeta.
  - now apply mirrored_cursor.
  - now apply mirrored_cursor.
  - revert C. now apply mirrored_same.
  - match goal with
    | |- context [insertTextAtCursorPosition ?x st] => set (ins := x)
    end.
    pose proof (mirrored_captureSelection _ (mirrored_insert ins st C))
      as C'.
    destruct (textAreaRef (captureSelection
                             (insertTextAtCursorPosition ins st)));
      [now apply mirrored_with_pending|exact C'].
  - now apply mirrored_cursor.
Qed.

Lemma mirrored_perform a st :
  browser_text a -> mirrored st ->
  mirrored (perform M MAX_ROWS MAX_IMAGES preprocessImage isMacPlatform
              a st).
Proof.
  intros Ha C. destruct a; simpl in *.
  - destruct (textAreaRef st); [|exact C].
    now apply mirrored_handleTextChange.
  - unfold paste, handlePaste. rewrite pasteItems_spec.
    set (st1 := with_pending _ st).
    assert (C1 : mirrored st1) by now apply mirrored_with_pending.
    destruct (includes _ (begin M) || includes _ (end_ M)).
    + destruct (false || existsb _ _); [exact C1|].
      now apply mirrored_nativeInput.
    + destruct (oversized MAX_ROWS (text_plain event)).
      * now apply mirrored_insert.
      * destruct (false || existsb _ _); [exact C1|].
        now apply mirrored_nativeInput.
  - unfold pressEnter.
    pose proof (mirrored_checkForSpecialKey
                  {| key := str "Enter"; shiftKey := shift |} st C) as C'.
    destruct (checkForSpecialKey _ st) as [st' prevented]. simpl in C'.
    destruct prevented; [exact C'|]. now apply mirrored_nativeInput.
  - now apply mirrored_checkForSpecialKey.
  - now apply mirrored_submit.
  - revert C. now apply mirrored_same.
  - destruct (handleAttachment_defers rendered files st) as (tasks & ->).
    now apply mirrored_with_pending.
  - revert C. now apply mirrored_same.
  - unfold handleExpandEditor.
    generalize (mirrored_captureSelection st C). now apply mirrored_same.
  - unfold handleCollapseEditor.
    generalize (mirrored_captureSelection st C). now apply mirrored_same.
  - unfold handleGlobalShortcut.
    destruct (_ && _ && _); [|exact C]. simpl.
    destruct (isExpanded st).
    + unfold handleCollapseEditor.
      generalize (mirrored_captureSelection st C). now apply mirrored_same.
    + unfold handleExpandEditor.
      generalize (mirrored_captureSelection st C). now apply mirrored_same.
  - apply mirrored_clear.
  - rewrite reset_clear. apply mirrored_clear.
  - revert C. now apply mirrored_same.
  - now apply mirrored_insert.
  - unfold runPending. destruct (nth_error (pending st) i); [|exact C].
    apply mirrored_runTask. now apply mirrored_with_pending.
Qed.

Lemma mirrored_initial loading0 allow : mirrored (initial loading0 allow).
Proof.
  intros ta H. unfold initial in H. simpl in H. now injection H as <-.
Qed.

Lemma mirrored_performAll l : forall st,
  Forall browser_text l -> mirrored st ->
  mirrored (performAll M MAX_ROWS MAX_IMAGES preprocessImage isMacPlatform
              l st).
Proof.
  induction l as [|a l IH]; intros st Hl C; [exact C|].
  inversion Hl; subst. simpl. apply IH; [assumption|].
  now apply mirrored_perform.
Qed.

(** X16.  The buffer stays in step.  After any sequence of user inputs,
    handle calls and callbacks on a freshly mounted composer, in whatever
    order pending callbacks complete, the browser delivering texts without
    carriage return: [textValue] (what [getTextValue] returns) equals
    [draftText], the mounted text area shows [draftText] with its line
    breaks normalised, which is [draftText] itself when it holds no
    carriage return, and [isTextEmpty] tells whether the trimmed text is
    empty. *)
Theorem buffer_stays_in_step loading0 allow (l : list Action) :
  Forall admissible l ->
  Forall browser_text l ->
  let st := performAll M MAX_ROWS MAX_IMAGES preprocessImage isMacPlatform
              l (initial loading0 allow) in
  getTextValue st = draftText st /\
  (forall ta, textAreaRef st = Some ta ->
     value ta = normalizeNewlines (draftText st)) /\
  (forall ta, textAreaRef st = Some ta -> ~ In CR (draftText st) ->
     value ta = draftText st) /\
  isTextEmpty st = eqb (trim (draftText st)) [].
Proof.
  intros Hl Hb st.
  destruct (consistent_performAll l _ Hl (consistent_initial loading0 allow))
    as (C1 & C2 & _).
  pose proof (mirrored_performAll l _ Hb (mirrored_initial loading0 allow))
    as C3.
  fold st in C1, C2, C3.
  split; [exact C1|]. split; [exact C3|]. split; [|exact C2].
  intros ta Hta Hcr. rewrite (C3 ta Hta). now apply normalizeNewlines_id.
Qed.

(** X17.  Selections stay inside the text.  After any such sequence the
    selection of the mounted text area satisfies
    [start <= end <= length] of its value, and so does the saved selection
    with respect to the buffer: the precondition of an insertion at the
    cursor always holds. *)
Theorem selection_stays_valid loading0 allow (l : list Action) :
  Forall admissible l ->
  let st := performAll M MAX_ROWS MAX_IMAGES preprocessImage isMacPlatform
              l (initial loading0 allow) in
  (forall ta, textAreaRef st = Some ta -> valid_selection ta) /\
  start (selectionRef st) <= end' (selectionRef st) /\
  end' (selectionRef st) <= length (draftText st).
Proof.
  intros Hl st.
  destruct (consistent_performAll l _ Hl (consistent_initial loading0 allow))
    as (_ & _ & C3 & C4 & C5).
  fold st in C3, C4, C5. repeat split; try assumption; now apply C3.
Qed.

(** X18.  The submit button.  After any such sequence the composer offers
    the stop button exactly while a send is outstanding, and otherwise the
    submit button, disabled exactly when the buffer holds nothing but
    white space. *)
Theorem submit_button_follows_buffer loading0 allow (l : list Action) :
  Forall admissible l ->
  let st := performAll M MAX_ROWS MAX_IMAGES preprocessImage isMacPlatform
              l (initial loading0 allow) in
  renderStopOrSubmit st =
    if loading st then StopButton
    else SubmitButton (eqb (trim (draftText st)) []) false.
Proof.
  intros Hl st.
  destruct (consistent_performAll l _ Hl (consistent_initial loading0 allow))
    as (_ & C2 & _).
  fold st in C2. unfold renderStopOrSubmit.
  destruct (loading st); [reflexivity|].
  now rewrite C2, orb_false_r.
Qed.

(** ** What is sent *)

Lemma quiet_refl st : quiet st st.
Proof. now split. Qed.

Lemma quiet_trans a b c : quiet a b -> quiet b c -> quiet a c.
Proof. intros [H1 H2] [H3 H4]. split; congruence. Qed.

Lemma quiet_insert text st : quiet (insertTextAtCursorPosition text st) st.
Proof.
  unfold insertTextAtCursorPosition, quiet.
  now destruct st as [? ? ? ? [ta|] ? ? ? ? ? ?].
Qed.

Lemma quiet_nativeInput text st : quiet (nativeInput text st) st.
Proof.
  unfold nativeInput, quiet.
  destruct st as [? ? ? ? [ta|] ? ? ? ? ? ?]; [|now split].
  cbn [textAreaRef]. now destruct (truthy (normalizeNewlines text)).
Qed.

Lemma quiet_onTextArea f st : quiet (onTextArea f st) st.
Proof.
  unfold onTextArea, quiet.
  now destruct st as [? ? ? ? [ta|] ? ? ? ? ? ?].
Qed.

Lemma quiet_captureSelection st : quiet (captureSelection st) st.
Proof.
  unfold captureSelection, quiet.
  now destruct st as [? ? ? ? [ta|] ? ? ? ? ? ?].
Qed.

Lemma quiet_clear st : quiet (clearValueAndUndoHistory st) st.
Proof.
  unfold clearValueAndUndoHistory, quiet.
  now destruct st as [? ? ? ? [ta|] ? ? ? ? ? ?].
Qed.

Lemma quiet_runTask t st : quiet (runTask M t st) st.
Proof.
  destruct t as [| pos | f | name result | pos]; unfold runTask; cbv zeta;
    try apply quiet_onTextArea; [now split|].
  match goal with
  | |- context [insertTextAtCursorPosition ?x st] => set (ins := x)
  end.
  assert (Q : quiet (captureSelection (insertTextAtCursorPosition ins st)) st)
    by (eapply quiet_trans;
        [apply quiet_captureSelection|apply quiet_insert]).
  destruct (textAreaRef (captureSelection
                           (insertTextAtCursorPosition ins st)));
    [|exact Q].
  destruct Q as [Q1 Q2]. now split.
Qed.

(** What one action adds to the calls: nothing, a cancellation, or one
    [callApp] whose attachments are the store when images are allowed and
    the empty list otherwise. *)
Lemma perform_calls a st :
  allowImageAttachment
    (perform M MAX_ROWS MAX_IMAGES preprocessImage isMacPlatform a st)
    = allowImageAttachment st /\
  exists extra,
    calls (perform M MAX_ROWS MAX_IMAGES preprocessImage isMacPlatform a st)
      = calls st ++ extra /\
    forall text files, In (CallApp text files) extra ->
      files = if eqb (allowImageAttachment st) (str "yes")
              then fileDataRef st else [].
Proof.
  assert (Hq : forall st', quiet st' st ->
            allowImageAttachment st' = allowImageAttachment st /\
            exists extra, calls st' = calls st ++ extra /\
              forall text files, In (CallApp text files) extra ->
                files = if eqb (allowImageAttachment st) (str "yes")
                        then fileDataRef st else []).
  { intros st' [Q1 Q2]. split; [exact Q2|]. exists [].
    rewrite app_nil_r. split; [exact Q1|]. intros ? ? []. }
  assert (Hs : allowImageAttachment (handleSubmit st)
               = allowImageAttachment st /\
               exists extra, calls (handleSubmit st) = calls st ++ extra /\
                 forall text files, In (CallApp text files) extra ->
                   files = if eqb (allowImageAttachment st) (str "yes")
                           then fileDataRef st else []).
  { split; [now destruct st as [? ? ? ? [ta|] ? ? ? ? ? ?]|].
    eexists. split; [apply handleSubmit_calls|].
    intros text files [H|[]]. now injection H as _ <-. }
  assert (Hk : forall e,
            allowImageAttachment (fst (checkForSpecialKey e st))
              = allowImageAttachment st /\
            exists extra,
              calls (fst (checkForSpecialKey e st)) = calls st ++ extra /\
              forall text files, In (CallApp text files) extra ->
                files = if eqb (allowImageAttachment st) (str "yes")
                        then fileDataRef st else []).
  { intros e.
    destruct (eqb (key e) (str "Enter")) eqn:K;
      [|unfold checkForSpecialKey; rewrite K; apply Hq, quiet_refl].
    destruct (shiftKey e) eqn:S;
      [unfold checkForSpecialKey; rewrite K, S; apply Hq, quiet_refl|].
    destruct (loading st) eqn:L;
      [unfold checkForSpecialKey; rewrite K, S, L; apply Hq, quiet_refl|].
    apply eqb_true_iff in K. destruct e as [k sh].
    cbn [key shiftKey] in K, S. subst.
    now rewrite (enter_is_submit st false eq_refl L). }
  destruct a; cbn [perform].
  - apply Hq. destruct (textAreaRef st); [now split|apply quiet_refl].
  - apply Hq. unfold paste, handlePaste. rewrite pasteItems_spec.
    set (st1 := with_pending _ st).
    assert (Q1 : quiet st1 st) by now split.
    destruct (includes _ (begin M) || includes _ (end_ M)).
    + destruct (false || existsb _ _); [exact Q1|].
      eapply quiet_trans; [apply quiet_nativeInput|exact Q1].
    + destruct (oversized MAX_ROWS (text_plain event)).
      * eapply quiet_trans; [apply quiet_insert|exact Q1].
      * destruct (false || existsb _ _); [exact Q1|].
        eapply quiet_trans; [apply quiet_nativeInput|exact Q1].
  - unfold pressEnter.
    specialize (Hk {| key := str "Enter"; shiftKey := shift |}).
    destruct (checkForSpecialKey _ st) as [st' prevented]. simpl in Hk.
    destruct prevented; [exact Hk|].
    destruct (quiet_nativeInput [LF] st') as [Q1 Q2].
    now rewrite Q1, Q2.
  - apply Hk.
  - exact Hs.
  - split; [reflexivity|]. exists [CancelStream; SetLoading false].
    split; [unfold handleCancel; simpl; now rewrite <- app_assoc|].
    intros text files [H|[H|[]]]; discriminate.
  - apply Hq.
    destruct (handleAttachment_defers rendered files st) as (tasks & ->).
    now split.
  - apply Hq. now split.
  - apply Hq. unfold handleExpandEditor.
    destruct (quiet_captureSelection st). now split.
  - apply Hq. unfold handleCollapseEditor.
    destruct (quiet_captureSelection st). now split.
  - apply Hq. unfold handleGlobalShortcut.
    destruct (_ && _ && _); [|apply quiet_refl]. simpl.
    destruct (quiet_captureSelection st).
    destruct (isExpanded st); now split.
  - apply Hq, quiet_clear.
  - apply Hq. rewrite reset_clear. apply quiet_clear.
  - apply Hq. now split.
  - apply Hq, quiet_insert.
  - apply Hq. unfold runPending.
    destruct (nth_error (pending st) i); [|apply quiet_refl].
    eapply quiet_trans; [apply quiet_runTask|now split].
Qed.

Lemma sent_files_app st extra :
  sent_files (with_calls (calls st ++ extra) st) =
  sent_files st
  ++ flat_map (fun c => match c with
                        | CallApp _ files => [files]
                        | _ => []
                        end) extra.
Proof. unfold sent_files. simpl. apply flat_map_app. Qed.

(** X19.  Attachments leave the composer only when images are allowed.
    If [allowImageAttachment] is not ['yes'], every message sent in the
    course of any sequence of actions carries the empty list of
    attachments, whatever the store holds by then. *)
Theorem attachments_sent_only_when_allowed (l : list Action) : forall st,
  eqb (allowImageAttachment st) (str "yes") = false ->
  Forall (fun files => files = []) (sent_files st) ->
  Forall (fun files => files = [])
    (sent_files (performAll M MAX_ROWS MAX_IMAGES preprocessImage
                   isMacPlatform l st)).
Proof.
  induction l as [|a l IH]; intros st Hno Hsent; [exact Hsent|].
  simpl. destruct (perform_calls a st) as (Hallow & extra & Hcalls & Hnew).
  apply IH; [now rewrite Hallow|].
  unfold sent_files. rewrite Hcalls, flat_map_app.
  apply Forall_app. split; [exact Hsent|].
  apply Forall_flat_map. apply Forall_forall. intros c Hc.
  destruct c as [text files| |]; [|constructor|constructor].
  constructor; [|constructor].
  rewrite (Hnew text files Hc). now rewrite Hno.
Qed.

End Invariants.

(* ================================================================== *)
(** * The further properties at work *)
(* ================================================================== *)

Lemma handleAttachment_cap_reached_witness :
  Sample.max_images <= length (fileDataRef SampleMore.full) /\
  length (fileDataRef
            (handleAttachment Sample.max_images Sample.preprocess
               SampleMore.full
               [Sample.png; SampleMore.notes; SampleMore.report]
               SampleMore.full)) = 2 /\
  pending (handleAttachment Sample.max_images Sample.preprocess
             SampleMore.full
             [Sample.png; SampleMore.notes; SampleMore.report]
             SampleMore.full)
    = [TextFileLoaded (str "notes.txt") (Some (str "remember the milk"))].
Proof.
  assert (Hcap : Sample.max_images <= length (fileDataRef SampleMore.full))
    by (vm_compute; lia).
  destruct (handleAttachment_cap_reached Sample.max_images Sample.preprocess
              SampleMore.full
              [Sample.png; SampleMore.notes; SampleMore.report]
              SampleMore.full Hcap) as (E & Hstore & _).
  split; [exact Hcap|]. split; [now rewrite Hstore|]. now rewrite E.
Defined.

Lemma pasteText_twice_witness :
  textAreaRef Sample.typed_hello =
    Some {| value := str "hello"; selectionStart := 5; selectionEnd := 5 |} /\
  pending Sample.typed_hello = [] /\
  draftText (run Sample.markers 1
               (pasteText (str "!")
                  (run Sample.markers 1
                     (pasteText (str ", world") Sample.typed_hello))))
    = str "hello, world!".
Proof.
  assert (Hv : valid_selection
                 {| value := str "hello"; selectionStart := 5;
                    selectionEnd := 5 |}) by (split; simpl; lia).
  assert (Hcr : ~ In CR (str "hello")).
  { simpl. intros H.
    repeat (destruct H as [H|H]; [discriminate H|]). exact H. }
  assert (Hcra : ~ In CR (str ", world")).
  { simpl. intros H.
    repeat (destruct H as [H|H]; [discriminate H|]). exact H. }
  destruct (pasteText_twice Sample.markers (str ", world") (str "!")
              Sample.typed_hello
              {| value := str "hello"; selectionStart := 5;
                 selectionEnd := 5 |}
              eq_refl Hv Hcr Hcra eq_refl)
    as (H1 & _ & _ & _ & H2).
  split; [reflexivity|]. split; [reflexivity|]. now rewrite H1, H2.
Defined.


Lemma paste_images_disallowed_witness :
  allowImageAttachment (initial false (str "no")) = str "no" /\
  handlePaste Sample.markers Sample.max_rows Sample.preprocess
    Sample.image_and_text (initial false (str "no"))
    = (initial false (str "no"), false) /\
  draftText (paste Sample.markers Sample.max_rows Sample.preprocess
               Sample.image_and_text (initial false (str "no")))
    = str "hi".
Proof.
  destruct (paste_images_disallowed Sample.markers Sample.max_rows
              Sample.preprocess Sample.image_and_text
              (initial false (str "no")) eq_refl) as (_ & H1 & H2 & _).
  split; [reflexivity|]. split; [now rewrite H1|now rewrite H2].
Defined.

Lemma session_admissible : Forall admissible SampleMore.session.
Proof. repeat constructor; simpl; lia. Qed.

Lemma windows_session_admissible :
  Forall admissible SampleMore.windows_session.
Proof. repeat constructor; simpl; lia. Qed.

Lemma windows_session_browser_text :
  Forall browser_text SampleMore.windows_session.
Proof. repeat constructor. Qed.

Lemma buffer_stays_in_step_witness :
  Forall admissible SampleMore.windows_session /\
  Forall browser_text SampleMore.windows_session /\
  forall ta,
    textAreaRef
      (performAll Sample.markers Sample.max_rows Sample.max_images
         Sample.preprocess false SampleMore.windows_session
         (initial false (str "yes"))) = Some ta ->
    value ta =
    normalizeNewlines
      (draftText
         (performAll Sample.markers Sample.max_rows Sample.max_images
            Sample.preprocess false SampleMore.windows_session
            (initial false (str "yes")))).
Proof.
  split; [exact windows_session_admissible|].
  split; [exact windows_session_browser_text|].
  exact (proj1 (proj2
    (buffer_stays_in_step Sample.markers Sample.max_rows
       Sample.max_images Sample.preprocess false false (str "yes")
       SampleMore.windows_session windows_session_admissible
       windows_session_browser_text))).
Defined.

Lemma selection_stays_valid_witness :
  Forall admissible SampleMore.session /\
  end' (selectionRef
          (performAll Sample.markers Sample.max_rows Sample.max_images
             Sample.preprocess false SampleMore.session
             (initial false (str "yes"))))
  <= length
       (draftText
          (performAll Sample.markers Sample.max_rows Sample.max_images
             Sample.preprocess false SampleMore.session
             (initial false (str "yes")))).
Proof.
  split; [exact session_admissible|].
  exact (proj2 (proj2
    (selection_stays_valid Sample.markers Sample.max_rows
       Sample.max_images Sample.preprocess false false (str "yes")
       SampleMore.session session_admissible))).
Defined.

Lemma submit_button_follows_buffer_witness :
  Forall admissible SampleMore.session /\
  renderStopOrSubmit
    (performAll Sample.markers Sample.max_rows Sample.max_images
       Sample.preprocess false SampleMore.session (initial false (str "yes")))
  = if loading
         (performAll Sample.markers Sample.max_rows Sample.max_images
            Sample.preprocess false SampleMore.session
            (initial false (str "yes")))
    then StopButton
    else SubmitButton
           (eqb (trim (draftText
                         (performAll Sample.markers Sample.max_rows
                            Sample.max_images Sample.preprocess false
                            SampleMore.session
                            (initial false (str "yes"))))) [])
           false.
Proof.
  split; [exact session_admissible|].
  exact (submit_button_follows_buffer Sample.markers Sample.max_rows
           Sample.max_images Sample.preprocess false false (str "yes")
           SampleMore.session session_admissible).
Defined.

Lemma attachments_sent_only_when_allowed_witness :
  eqb (allowImageAttachment SampleMore.warned) (str "yes") = false /\
  Forall (fun files => files = []) (sent_files SampleMore.warned) /\
  Forall (fun files => files = [])
    (sent_files
       (performAll Sample.markers Sample.max_rows Sample.max_images
          Sample.preprocess false SampleMore.session SampleMore.warned)).
Proof.
  assert (H0 : Forall (fun files : list FileDataRef => files = [])
                 (sent_files SampleMore.warned)) by constructor.
  split; [reflexivity|]. split; [exact H0|].
  exact (attachments_sent_only_when_allowed Sample.markers Sample.max_rows
           Sample.max_images Sample.preprocess false SampleMore.session
           SampleMore.warned eq_refl H0).
Defined.
